(** * LiteGPT Web: session store, markdown interchange and chat controller

    A shallow embedding of the TypeScript sources

    - [src/types/index.ts]            ([Message], [ChatSession]),
    - [src/utils/chatSession.ts]      ([createSession]),
    - [src/utils/chatImportExport.ts] ([exportSessionToMarkdown],
                                       [parseMarkdownToSession]),
    - [src/ai/generate.ts]            ([generateResponse], both revisions),
    - [src/hooks/useChat.ts]          ([handleCreateSession],
                                       [handleDeleteSession], [handleSend], ...),

    together with the properties the specification states about them. *)

From Stdlib Require Import Ascii.
From stdpp Require Import base numbers strings list.

(** ** JavaScript strings

    A JavaScript string is a sequence of UTF-16 code units; [length],
    [slice], [substring] and [startsWith] all count code units.  String
    literals of the sources are written with [lit]; the few non-ASCII
    literals are spelled out as code units. *)

Definition codeunit := N.
Definition jstring := list codeunit.

Fixpoint lit (s : string) : jstring :=
  match s with
  | EmptyString => []
  | String a rest => N_of_ascii a :: lit rest
  end.
Arguments lit s%_string.

(** U+000A, the separator handed to [split] and written by the exporter. *)
Definition LF : codeunit := 10%N.

(** [s.startsWith(p)] *)
Fixpoint startsWith (s p : jstring) {struct p} : bool :=
  match p, s with
  | [], _ => true
  | _ :: _, [] => false
  | a :: p', b :: s' => (b =? a)%N && startsWith s' p'
  end.

(** [s.substring(n)] for a non-negative literal [n] *)
Definition substring (n : nat) (s : jstring) : jstring := drop n s.

(** [s.slice(0, n)] for a non-negative literal [n] *)
Definition slice0 (n : nat) (s : jstring) : jstring := take n s.

(** ECMAScript WhiteSpace and LineTerminator code points, the ones
    [String.prototype.trim] strips.  All of them are single code units. *)
Definition isWhiteSpace (c : codeunit) : bool :=
  ((c =? 9) || (c =? 10) || (c =? 11) || (c =? 12) || (c =? 13)
   || (c =? 32) || (c =? 160) || (c =? 5760)
   || ((8192 <=? c) && (c <=? 8202))
   || (c =? 8232) || (c =? 8233) || (c =? 8239) || (c =? 8287)
   || (c =? 12288) || (c =? 65279))%N.

Fixpoint trimStart (s : jstring) : jstring :=
  match s with
  | [] => []
  | c :: rest => if isWhiteSpace c then trimStart rest else s
  end.

Definition trimEnd (s : jstring) : jstring := reverse (trimStart (reverse s)).

(** [s.trim()] *)
Definition trim (s : jstring) : jstring := trimEnd (trimStart s).

(** [s.split(sep)] for a one-code-unit separator: never empty, the pieces
    carry no separator, [n] separators give [n + 1] pieces. *)
Fixpoint split (sep : codeunit) (s : jstring) : list jstring :=
  match s with
  | [] => [[]]
  | c :: rest =>
      if (c =? sep)%N then [] :: split sep rest
      else match split sep rest with
           | piece :: pieces => (c :: piece) :: pieces
           | [] => [[c]]
           end
  end.

(** [pieces.join(sep)] *)
Fixpoint join (sep : jstring) (pieces : list jstring) : jstring :=
  match pieces with
  | [] => []
  | [p] => p
  | p :: rest => p ++ sep ++ join sep rest
  end.

(** ** Data model ([src/types/index.ts]) *)

Inductive Role := user | ai.

Global Instance Role_eq_dec : EqDecision Role.
Proof. solve_decision. Defined.

Record Message := mkMessage {
  role : Role;
  content : jstring;
  image : option jstring
}.

Global Instance Message_eq_dec : EqDecision Message.
Proof. solve_decision. Defined.

Record ChatSession := mkChatSession {
  id : jstring;
  title : jstring;
  messages : list Message;
  createdAt : Z
}.

Global Instance ChatSession_eq_dec : EqDecision ChatSession.
Proof. solve_decision. Defined.

(** ** Session store ([src/utils/chatSession.ts])

    [crypto.randomUUID()] and [Date.now()] are the platform's: the value
    each call draws is an argument of the embedding. *)

Definition createSession (uuid : jstring) (now : Z) : ChatSession :=
  {| id := uuid; title := lit "New Chat"; messages := []; createdAt := now |}.

(** ** Markdown interchange ([src/utils/chatImportExport.ts]) *)

Definition roleLabel (r : Role) : jstring :=
  match r with user => lit "User" | ai => lit "AI" end.

(** One turn of the [forEach] of the exporter: [md += `**${role}**: ${msg.content}\n\n`]. *)
Definition exportMessage (md : jstring) (msg : Message) : jstring :=
  md ++ lit "**" ++ roleLabel (role msg) ++ lit "**: " ++ content msg ++ [LF; LF].

Definition exportSessionToMarkdown (session : ChatSession) : jstring :=
  fold_left exportMessage (messages session) (lit "# " ++ title session ++ [LF; LF]).

(** The body of the [for (const line of lines)] loop of the importer, on the
    two variables it assigns: [title] and [messages].  The three [if]s are
    independent, as in the source. *)
Definition parseLine (acc : jstring * list Message) (line : jstring)
  : jstring * list Message :=
  let '(title, messages) := acc in
  let title :=
    if startsWith line (lit "# ") then trim (substring 2 line) else title in
  let messages :=
    if startsWith line (lit "**User**:")
    then messages ++ [mkMessage user (trim (substring 9 line)) None]
    else messages in
  let messages :=
    if startsWith line (lit "**AI**:")
    then messages ++ [mkMessage ai (trim (substring 7 line)) None]
    else messages in
  (title, messages).

(** [parseMarkdownToSession]; [None] is the source's [null].  Nothing in the
    [try] block throws on a string argument, so the [catch] is not entered. *)
Definition parseMarkdownToSession (uuid : jstring) (now : Z) (markdown : jstring)
  : option ChatSession :=
  let lines := split LF markdown in
  let '(title, messages) := fold_left parseLine lines (lit "Imported Chat", []) in
  if (length messages =? 0)%nat then None
  else Some {| id := uuid; title := title; messages := messages; createdAt := now |}.

(** ** JavaScript values

    What [puter.ai.chat] may resolve with or reject with, and what a
    collaborator may throw: JSON-shaped data and [Error] instances.  A
    number is carried as the text [Number.prototype.toString] gives for it,
    which is all the code below can observe of it (its rendering, and whether
    it is [0] or [NaN]). *)

#[warnings="-register-all"]
Inductive jsval :=
  | VUndefined
  | VNull
  | VBool (b : bool)
  | VNum (repr : jstring)
  | VStr (s : jstring)
  | VArr (items : list jsval)
  | VObj (fields : list (jstring * jsval))
  | VError (message : jstring).

(** ToBoolean *)
Definition truthy (v : jsval) : bool :=
  match v with
  | VUndefined | VNull => false
  | VBool b => b
  | VNum repr => negb (bool_decide (repr = lit "0") || bool_decide (repr = lit "NaN"))
  | VStr s => negb (bool_decide (s = []))
  | VArr _ | VObj _ | VError _ => true
  end.

(** [a || b] *)
Definition orElse (a b : jsval) : jsval := if truthy a then a else b.

Fixpoint lookupField (name : jstring) (fields : list (jstring * jsval)) : jsval :=
  match fields with
  | [] => VUndefined
  | (k, v) :: rest => if bool_decide (k = name) then v else lookupField name rest
  end.

(** [v?.name], for the two property names the code reads ([message] and
    [content]): absent on primitives and arrays, and [message] on an [Error]
    is its message. *)
Definition getProp (v : jsval) (name : jstring) : jsval :=
  match v with
  | VObj fields => lookupField name fields
  | VError message => if bool_decide (name = lit "message") then VStr message else VUndefined
  | _ => VUndefined
  end.

(** [String(v)] *)
Fixpoint toString (v : jsval) : jstring :=
  match v with
  | VUndefined => lit "undefined"
  | VNull => lit "null"
  | VBool true => lit "true"
  | VBool false => lit "false"
  | VNum repr => repr
  | VStr s => s
  | VArr items =>
      join (lit ",")
        (List.map (fun x => match x with
                            | VUndefined | VNull => []
                            | _ => toString x
                            end) items)
  | VObj _ => lit "[object Object]"
  | VError message =>
      if bool_decide (message = []) then lit "Error" else lit "Error: " ++ message
  end.

(** How a JavaScript computation ends: with a value or with a thrown one. *)
Inductive completion (A : Type) :=
  | Return (a : A)
  | Throw (e : jsval).
Arguments Return {A} a.
Arguments Throw {A} e.

(** ** The remote call and asynchronous functions

    [puter.ai.chat(payload, options)] is the only suspension point.  An
    [async] function either settles without reaching it, or is suspended on a
    request; [resume] is the rest of the function, run when the request
    settles, on the state as it is at that moment. *)

Record ChatRequest := mkChatRequest {
  payload : jsval;
  model : jstring;
  stream : bool
}.

Inductive ApiOutcome :=
  | Resolved (response : jsval)
  | Rejected (error : jsval).

Inductive async (S A : Type) :=
  | Settled (c : completion A) (s : S)
  | Pending (s : S) (request : ChatRequest) (resume : ApiOutcome → S → completion A * S).
Arguments Settled {S A} c s.
Arguments Pending {S A} s request resume.

(** Run to completion with nothing interleaved: the request settles with
    [o] on the state it was issued in. *)
Definition runAsync {S A} (a : async S A) (o : ApiOutcome) : completion A * S :=
  match a with
  | Settled c s => (c, s)
  | Pending s _ resume => resume o s
  end.

(** The same when other handlers ran in between: the request settles with
    [o] once the state has become [later]. *)
Definition settleAt {S A} (a : async S A) (o : ApiOutcome) (later : S) : completion A * S :=
  match a with
  | Settled c s => (c, s)
  | Pending _ _ resume => resume o later
  end.

Definition pendingState {S A} (a : async S A) : option S :=
  match a with Pending s _ _ => Some s | Settled _ _ => None end.

Definition settledState {S A} (a : async S A) : option S :=
  match a with Settled _ s => Some s | Pending _ _ _ => None end.

Definition requestOf {S A} (a : async S A) : option ChatRequest :=
  match a with Pending _ r _ => Some r | Settled _ _ => None end.

(** ** Text generation ([src/ai/generate.ts]) *)

Inductive logEntry :=
  | LogUnexpectedResponse (response : jsval)
  | LogGenerationError (error : jsval)
  | LogSendError (error : jsval).

(** The module variable [isGenerating], whether the global [puter] is
    defined, and the console. *)
Record Env := mkEnv {
  isGenerating : bool;
  puterLoaded : bool;
  console : list logEntry
}.

Definition setIsGenerating (b : bool) (e : Env) : Env :=
  {| isGenerating := b; puterLoaded := puterLoaded e; console := console e |}.

Definition logTo (entry : logEntry) (e : Env) : Env :=
  {| isGenerating := isGenerating e; puterLoaded := puterLoaded e;
     console := console e ++ [entry] |}.

(** U+26A0 U+FE0F, the warning sign that opens the three fixed texts. *)
Definition WARNING_SIGN : jstring := [9888%N; 65039%N].

Definition PLEASE_WAIT : jstring :=
  WARNING_SIGN ++ lit " Please wait for the current response to finish.".

Definition AI_ERROR_PREFIX : jstring := WARNING_SIGN ++ lit " AI Error: ".

Definition PUTER_NOT_LOADED : jsval :=
  VError (lit "Puter.js not loaded. Please refresh the page.").

(** [if (image)]: present and not the empty string *)
Definition imageGiven (image : option jstring) : option jstring :=
  match image with
  | Some ((_ :: _) as i) => Some i
  | _ => None
  end.

Definition buildPayload (prompt : jstring) (image : option jstring) : jsval :=
  match imageGiven image with
  | None => VStr prompt
  | Some image =>
      VArr [VObj [(lit "role", VStr (lit "user"));
                  (lit "content",
                   VArr [VObj [(lit "type", VStr (lit "text"));
                               (lit "text",
                                orElse (VStr prompt) (VStr (lit "What is in this image?")))];
                         VObj [(lit "type", VStr (lit "image_url"));
                               (lit "image_url",
                                VObj [(lit "url",
                                       VStr (if startsWith image (lit "data:") then image
                                             else lit "data:image/jpeg;base64," ++ image))])]])]]
  end.

(** The chain of [if]s that reads the text out of the response, then
    [responseText.trim()]. *)
Definition readResponse (response : jsval) (e : Env) : jstring * Env :=
  let messageContent := getProp (getProp response (lit "message")) (lit "content") in
  let directContent := getProp response (lit "content") in
  let message := getProp response (lit "message") in
  let '(responseText, e) :=
    match response with
    | VStr s => (s, e)
    | _ =>
      match messageContent with
      | VStr ((_ :: _) as s) => (s, e)
      | _ =>
        match directContent with
        | VStr ((_ :: _) as s) => (s, e)
        | _ =>
          match message with
          | VStr ((_ :: _) as s) => (s, e)
          | _ =>
            (toString (orElse (orElse messageContent directContent)
                              (VStr (lit "Error: Invalid response"))),
             logTo (LogUnexpectedResponse response) e)
          end
        end
      end
    end in
  (trim responseText, e).

Module GenerateLegacy.
(** The two-parameter revision, the one [handleSend] calls. *)

Definition catchBlock (error : jsval) (e : Env) : completion jstring * Env :=
  let e := logTo (LogGenerationError error) e in
  let errorMessage :=
    match error with
    | VError message => message
    | _ => lit "Unknown error"
    end in
  (Return (AI_ERROR_PREFIX ++ errorMessage), e).

Definition generateResponse (prompt : jstring) (image : option jstring) (e : Env)
  : async Env jstring :=
  if isGenerating e then Settled (Return PLEASE_WAIT) e
  else
    let e := setIsGenerating true e in
    if negb (puterLoaded e) then
      let '(c, e) := catchBlock PUTER_NOT_LOADED e in
      Settled c (setIsGenerating false e)
    else
      Pending e (mkChatRequest (buildPayload prompt image) (lit "gpt-4o-mini") false)
        (fun outcome e =>
           let '(c, e) :=
             match outcome with
             | Resolved response =>
                 let '(text, e) := readResponse response e in (Return text, e)
             | Rejected error => catchBlock error e
             end in
           (c, setIsGenerating false e)).
End GenerateLegacy.

Module Generate.
Section WithPlatform.
(** The three-parameter revision.  [JSON.stringify] is the platform's: it
    gives a text or throws (a cycle, a [BigInt]). *)
Variable JSON_stringify : jsval → completion jstring.

Definition catchBlock (error : jsval) (e : Env) : completion jstring * Env :=
  let e := logTo (LogGenerationError error) e in
  let errorMessage :=
    match error with
    | VError message => message
    | VStr s => s
    | VArr _ | VObj _ =>
        match JSON_stringify error with
        | Return text => text
        | Throw _ => toString error
        end
    | VUndefined | VNull | VBool _ | VNum _ => lit "Unknown error"
    end in
  (Return (AI_ERROR_PREFIX ++ errorMessage), e).

(** [model] is [None] when the caller leaves it out: the default
    parameter value applies. *)
Definition generateResponse (prompt : jstring) (model : option jstring)
    (image : option jstring) (e : Env) : async Env jstring :=
  if isGenerating e then Settled (Return PLEASE_WAIT) e
  else
    let e := setIsGenerating true e in
    if negb (puterLoaded e) then
      let '(c, e) := catchBlock PUTER_NOT_LOADED e in
      Settled c (setIsGenerating false e)
    else
      Pending e
        (mkChatRequest (buildPayload prompt image)
           (default (lit "gpt-4o-mini") model) false)
        (fun outcome e =>
           let '(c, e) :=
             match outcome with
             | Resolved response =>
                 let '(text, e) := readResponse response e in (Return text, e)
             | Rejected error => catchBlock error e
             end in
           (c, setIsGenerating false e)).
End WithPlatform.
End Generate.

(** ** Chat controller ([src/hooks/useChat.ts])

    The three [useState] cells of the hook, the [sessionStorage] entry the
    save effect writes, and the environment of the generation module.  A
    state setter is applied at once; an updater function [prev => ...] is
    applied to the state as it is when the setter runs. *)

Record World := mkWorld {
  sessions : list ChatSession;
  activeSessionId : option jstring;
  isTyping : bool;
  storage : option (list ChatSession);
  env : Env
}.

Definition setSessions (f : list ChatSession → list ChatSession) (w : World) : World :=
  {| sessions := f (sessions w); activeSessionId := activeSessionId w;
     isTyping := isTyping w; storage := storage w; env := env w |}.

Definition setActiveSessionId (a : option jstring) (w : World) : World :=
  {| sessions := sessions w; activeSessionId := a;
     isTyping := isTyping w; storage := storage w; env := env w |}.

Definition setIsTyping (b : bool) (w : World) : World :=
  {| sessions := sessions w; activeSessionId := activeSessionId w;
     isTyping := b; storage := storage w; env := env w |}.

Definition setEnv (e : Env) (w : World) : World :=
  {| sessions := sessions w; activeSessionId := activeSessionId w;
     isTyping := isTyping w; storage := storage w; env := e |}.

(** [saveSessions(sessions)] *)
Definition saveSessions (l : list ChatSession) (w : World) : World :=
  {| sessions := sessions w; activeSessionId := activeSessionId w;
     isTyping := isTyping w; storage := Some l; env := env w |}.

(** [loadSessions()]: the stored list, the empty one when there is none. *)
Definition loadSessions (w : World) : list ChatSession := default [] (storage w).

(** The effect on [[sessions]]: persist the list whenever it is not empty. *)
Definition saveEffect (w : World) : World :=
  if (0 <? length (sessions w))%nat then saveSessions (sessions w) w else w.

(** The effect on mount. *)
Definition loadEffect (uuid : jstring) (now : Z) (w : World) : World :=
  let loaded := loadSessions w in
  match loaded with
  | first :: _ => setActiveSessionId (Some (id first)) (setSessions (λ _, loaded) w)
  | [] =>
      let firstSession := createSession uuid now in
      setActiveSessionId (Some (id firstSession)) (setSessions (λ _, [firstSession]) w)
  end.

Definition MAX_MESSAGES : nat := 50.

(** [sessions.find(s => s.id === target)] *)
Definition findSession (target : jstring) (l : list ChatSession) : option ChatSession :=
  List.find (λ s, bool_decide (id s = target)) l.

(** [!activeSessionId]: [null], or the empty string *)
Definition activeTarget (w : World) : option jstring :=
  match activeSessionId w with
  | Some ((_ :: _) as a) => Some a
  | _ => None
  end.

Definition withMessages (s : ChatSession) (l : list Message) : ChatSession :=
  {| id := id s; title := title s; messages := l; createdAt := createdAt s |}.

Definition withTitle (s : ChatSession) (t : jstring) : ChatSession :=
  {| id := id s; title := t; messages := messages s; createdAt := createdAt s |}.

(** [updatedMessages.length > MAX_MESSAGES
       ? updatedMessages.slice(updatedMessages.length - MAX_MESSAGES)
       : updatedMessages] *)
Definition trimmedMessages (updatedMessages : list Message) : list Message :=
  if (MAX_MESSAGES <? length updatedMessages)%nat
  then drop (length updatedMessages - MAX_MESSAGES) updatedMessages
  else updatedMessages.

(** [(text || 'Image Analysis').slice(0, 30) + (text && text.length > 30 ? '...' : '')] *)
Definition derivedTitle (text : jstring) : jstring :=
  slice0 30 (match text with [] => lit "Image Analysis" | _ => text end)
  ++ (if negb (bool_decide (text = [])) && (30 <? length text)%nat
      then lit "..." else []).

(** The three updaters [handleSend] maps over the session list. *)
Definition addUserMessage (activeId text : jstring) (newUserMsg : Message)
    (s : ChatSession) : ChatSession :=
  if bool_decide (id s = activeId) then
    let updatedMessages := messages s ++ [newUserMsg] in
    let newTitle :=
      if (length (messages s) =? 0)%nat && bool_decide (title s = lit "New Chat")
      then derivedTitle text
      else title s in
    {| id := id s; title := newTitle; messages := trimmedMessages updatedMessages;
       createdAt := createdAt s |}
  else s.

Definition addAiMessage (activeId : jstring) (newAiMsg : Message)
    (s : ChatSession) : ChatSession :=
  if bool_decide (id s = activeId) then
    withMessages s (trimmedMessages (messages s ++ [newAiMsg]))
  else s.

Definition addErrorMessage (activeId : jstring) (errorMsg : Message)
    (s : ChatSession) : ChatSession :=
  if bool_decide (id s = activeId) then withMessages s (messages s ++ [errorMsg])
  else s.

Definition SORRY : jstring :=
  WARNING_SIGN ++ lit " Sorry, I couldn't generate a response.".

(** [currentHistory.slice(-10)] rendered as [User: ...]/[AI: ...] lines *)
Definition promptContext (currentHistory : list Message) : jstring :=
  let historyWindow := drop (length currentHistory - 10) currentHistory in
  join [LF] (List.map (λ m, roleLabel (role m) ++ lit ": " ++ content m) historyWindow).

Definition fullPrompt (currentHistory : list Message) (text : jstring) : jstring :=
  promptContext currentHistory ++ [LF] ++ lit "User: "
  ++ (match text with [] => lit "[Image uploaded]" | _ => text end)
  ++ [LF] ++ lit "AI:".

(** What [handleSend] does once [await generateResponse(...)] has settled:
    the rest of the [try] block, or the [catch] block, then [finally]. *)
Definition afterGenerate (activeId : jstring) (c : completion jstring) (w : World) : World :=
  let w :=
    match c with
    | Return aiText =>
        setSessions (List.map (addAiMessage activeId (mkMessage ai aiText None))) w
    | Throw error =>
        let w := setEnv (logTo (LogSendError error) (env w)) w in
        setSessions (List.map (addErrorMessage activeId (mkMessage ai SORRY None))) w
    end in
  setIsTyping false w.

(** The generation collaborator as [handleSend] sees it: a function of the
    prompt and the optional image, acting on the generation module's own
    state only. *)
Definition Collaborator := jstring → option jstring → Env → async Env jstring.

Definition handleSendWith (generate : Collaborator)
    (text : jstring) (image : option jstring) (w : World) : async World unit :=
  match activeTarget w with
  | None => Settled (Return ()) w
  | Some activeId =>
      let newUserMsg := mkMessage user text image in
      let currentSession := findSession activeId (sessions w) in
      let currentHistory :=
        match currentSession with Some s => messages s | None => [] end in
      let w := setSessions (List.map (addUserMessage activeId text newUserMsg)) w in
      let w := setIsTyping true w in
      match generate (fullPrompt currentHistory text) image (env w) with
      | Settled c e => Settled (Return ()) (afterGenerate activeId c (setEnv e w))
      | Pending e request resume =>
          Pending (setEnv e w) request
            (λ outcome w',
               let '(c, e') := resume outcome (env w') in
               (Return (), afterGenerate activeId c (setEnv e' w')))
      end
  end.

(** [handleSend] as the hook defines it: it calls
    [generateResponse(fullPrompt, image)]. *)
Definition handleSend : jstring → option jstring → World → async World unit :=
  handleSendWith GenerateLegacy.generateResponse.

Definition handleCreateSession (uuid : jstring) (now : Z) (w : World) : World :=
  let newSession := createSession uuid now in
  let w := setSessions (λ prev, take 10 (newSession :: prev)) w in
  setActiveSessionId (Some (id newSession)) w.

Definition handleClearSession (w : World) : World :=
  match activeTarget w with
  | None => w
  | Some activeId =>
      setSessions
        (List.map (λ s, if bool_decide (id s = activeId) then withMessages s [] else s)) w
  end.

(** Reading [.id] of [newSessions[0]] when the filtered list is empty. *)
Definition TYPE_ERROR : jsval :=
  VError (lit "Cannot read properties of undefined (reading 'id')").

Definition handleDeleteSession (target uuid : jstring) (now : Z) (w : World)
  : completion unit * World :=
  if (length (sessions w) =? 1)%nat
     && match sessions w with s0 :: _ => bool_decide (id s0 = target) | [] => false end
  then
    let newSession := createSession uuid now in
    let w := setSessions (λ _, [newSession]) w in
    (Return (), setActiveSessionId (Some (id newSession)) w)
  else
    let newSessions := filter (λ s, id s ≠ target) (sessions w) in
    let w := setSessions (λ _, newSessions) w in
    if bool_decide (Some target = activeSessionId w) then
      match newSessions with
      | first :: _ => (Return (), setActiveSessionId (Some (id first)) w)
      | [] => (Throw TYPE_ERROR, w)
      end
    else (Return (), w).

Definition handleRenameSession (target newTitle : jstring) (w : World) : World :=
  setSessions (List.map (λ s, if bool_decide (id s = target) then withTitle s newTitle else s)) w.

(** ** Vocabulary of the statements *)

(** No leading and no trailing white space: [trim] leaves the text alone. *)
Definition trimmed (s : jstring) : Prop := trim s = s.

(** The messages one line of an imported file contributes. *)
Definition lineMessages (line : jstring) : list Message :=
  snd (parseLine ([], []) line).

(** The title one line of an imported file sets, if it sets one. *)
Definition lineTitle (line : jstring) : option jstring :=
  if startsWith line (lit "# ") then Some (trim (substring 2 line)) else None.

(** The line the exporter writes for a message, and the text it appends. *)
Definition exportedLine (m : Message) : jstring :=
  lit "**" ++ roleLabel (role m) ++ lit "**: " ++ content m.

(** What an import can keep of a message: its role and its text. *)
Definition withoutImage (m : Message) : Message :=
  mkMessage (role m) (content m) None.

(** The round-trip property in the words of the specification: the sessions
    it is claimed for, and what is claimed of them. *)
Definition roundTripDomainAsSpecified (S : ChatSession) : Prop :=
  Forall (λ m, (LF ∉ content m)
               ∧ startsWith (content m) (lit "**User**:") = false
               ∧ startsWith (content m) (lit "**AI**:") = false) (messages S).

Definition roundTrips (uuid : jstring) (now : Z) (S : ChatSession) : Prop :=
  ∃ S', parseMarkdownToSession uuid now (exportSessionToMarkdown S) = Some S'
        ∧ title S' = title S
        ∧ List.map role (messages S') = List.map role (messages S)
        ∧ List.map content (messages S') = List.map content (messages S).

(** A run of [createSession] requests, each followed by the save effect its
    change of [sessions] triggers; a request comes with the identifier and the
    time it draws. *)
Definition createStep (w : World) (draw : jstring * Z) : World :=
  saveEffect (handleCreateSession draw.1 draw.2 w).

Definition createAll (draws : list (jstring * Z)) (w : World) : World :=
  fold_left createStep draws w.

(** The title of a session after a send, in the words of the specification:
    derived from the text when the session is the target, has no message and
    still carries the default title; the title it had otherwise. *)
Definition titleAfterSendAsSpecified (target : option jstring) (text : jstring)
    (s : ChatSession) : jstring :=
  match target with
  | Some a =>
      if bool_decide (id s = a) && bool_decide (messages s = [])
         && bool_decide (title s = lit "New Chat")
      then
        if bool_decide (text = []) then lit "Image Analysis"
        else take 30 text ++ (if bool_decide (30 < length text) then lit "..." else [])
      else title s
  | None => title s
  end.

(** The send with a collaborator, run with nothing interleaved. *)
Definition sendWith (generate : Collaborator) (text : jstring) (image : option jstring)
    (o : ApiOutcome) (w : World) : World :=
  (runAsync (handleSendWith generate text image w) o).2.

(** A run of sends, each with its collaborator, text, image and the outcome
    of its request, one after the other. *)
Definition SendRequest : Type := Collaborator * jstring * option jstring * ApiOutcome.

Definition sendStep (w : World) (r : SendRequest) : World :=
  let '(generate, text, image, o) := r in sendWith generate text image o w.

Definition sendAll (requests : list SendRequest) (w : World) : World :=
  fold_left sendStep requests w.

(** [handleSend] with the three-parameter [generateResponse] in the place
    of the two-parameter one; [modelOf] and [imageOf] say what the call hands
    over as model and as image, given the image of the send. *)
Definition withModel (JSON_stringify : jsval → completion jstring)
    (modelOf imageOf : option jstring → option jstring) : Collaborator :=
  λ prompt image,
    Generate.generateResponse JSON_stringify prompt (modelOf image) (imageOf image).

Definition isSendError (entry : logEntry) : bool :=
  match entry with LogSendError _ => true | _ => false end.

Definition messagesOf (target : jstring) (w : World) : option (list Message) :=
  messages <$> findSession target (sessions w).


(** A send turned away by the guard of the generation module: it is over
    without a request, the generation module is as it was, the typing flag is
    down, and the target session has the new user message and, after it, the
    wait notice as an assistant message. *)
Definition turnedAway (a : jstring) (s : ChatSession) (text : jstring)
    (image : option jstring) (w : World) (send : async World unit) : Prop :=
  ∃ w', send = Settled (Return ()) w'
        ∧ env w' = env w
        ∧ isTyping w' = false
        ∧ messagesOf a w'
          = Some (trimmedMessages
                    (trimmedMessages (messages s ++ [mkMessage user text image])
                     ++ [mkMessage ai PLEASE_WAIT None])).

(** A collaborator stubbed to throw. *)
Definition throwingStub (error : jsval) : Collaborator :=
  λ _ _ e, Settled (Throw error) e.

(** ** Sample data *)

Definition sampleId : jstring := lit "3f2c".
Definition otherId : jstring := lit "9a71".
Definition hi : Message := mkMessage user (lit "hi") None.
Definition hello : Message := mkMessage ai (lit "Hello!") None.

Definition sampleSession : ChatSession :=
  {| id := sampleId; title := lit "Greetings"; messages := [hi; hello]; createdAt := 1000 |}.

Definition emptySession : ChatSession := createSession sampleId 1000.

Definition paddedSession : ChatSession :=
  {| id := sampleId; title := lit "Greetings";
     messages := [mkMessage user (lit " hi") None]; createdAt := 1000 |}.

Definition paddedTitleSession : ChatSession :=
  {| id := sampleId; title := lit " Greetings"; messages := [hi]; createdAt := 1000 |}.

Definition twoHeadings : jstring :=
  lit "# First" ++ [LF] ++ lit "# Second" ++ [LF] ++ lit "**User**: hi".

Definition newlineTitleSession : ChatSession :=
  {| id := sampleId; title := lit "Greetings" ++ [LF] ++ lit "# Farewell";
     messages := [hi]; createdAt := 1000 |}.

Definition idleEnv : Env := mkEnv false true [].

Definition worldOf (l : list ChatSession) (active : jstring) : World :=
  mkWorld l (Some active) false (Some l) idleEnv.

Definition freshWorld : World := worldOf [emptySession] sampleId.

(** The world a first send leaves while its generation call is unresolved. *)
Definition sendingWorld : World :=
  default freshWorld
    (pendingState (handleSend (lit "hi") None (worldOf [sampleSession] sampleId))).

Definition fullSession : ChatSession :=
  {| id := sampleId; title := lit "Greetings"; messages := replicate 50 hi;
     createdAt := 1000 |}.

Definition fullWorld : World := worldOf [fullSession] sampleId.

Definition networkDown : jsval := VError (lit "Failed to fetch").

Definition tenDraws : list (jstring * Z) :=
  List.map (λ n : nat, (lit "s" ++ replicate n 48%N, Z.of_nat n)) (seq 0 10).

(** A [JSON.stringify] that gives the text of an empty object. *)
Definition stringifyStub : jsval → completion jstring := λ _, Return (lit "{}").

Definition twoSessions : World :=
  worldOf [sampleSession; createSession otherId 2000] sampleId.

(** ** Chat route ([src/app/routes/Chat.tsx]) and side bar ([src/components/Sidebar.tsx]) *)

(** [handleExportSession]: the file [downloadFile] is asked for, as its name
    and its content; none without a session. *)
Definition handleExportSession (session : option ChatSession) : option (jstring * jstring) :=
  match session with
  | None => None
  | Some session =>
      let md := exportSessionToMarkdown session in
      Some ((match title session with [] => lit "chat" | _ => title session end)
            ++ lit ".md", md)
  end.

Inductive MenuAction := RenameChat | DeleteChat | ExportChat.

(** [handleAction] of the side bar, with what the user answers to
    [confirm] and to [prompt] ([None] is the [null] of a dismissed prompt).
    The result is how the handler ends, the state, and the file asked for.
    The menu state of the component and its debug line are left out. *)
Definition handleAction (action : MenuAction) (target : jstring)
    (confirmed : bool) (answer : option jstring) (uuid : jstring) (now : Z)
    (w : World) : completion unit * World * option (jstring * jstring) :=
  match findSession target (sessions w) with
  | None => (Return (), w, None)
  | Some session =>
      match action with
      | DeleteChat =>
          if confirmed then
            let '(c, w') := handleDeleteSession target uuid now w in (c, w', None)
          else (Return (), w, None)
      | RenameChat =>
          match answer with
          | Some ((_ :: _) as newTitle) =>
              (Return (), handleRenameSession target newTitle w, None)
          | _ => (Return (), w, None)
          end
      | ExportChat => (Return (), w, handleExportSession (Some session))
      end
  end.

(** The button of a listed session: [onSelectSession(session.id)]. *)
Definition selectListed (index : nat) (w : World) : World :=
  match sessions w !! index with
  | Some session => setActiveSessionId (Some (id session)) w
  | None => w
  end.

(** ** Message input ([src/components/ChatLayout.tsx], [ChatInput]) *)

Module ChatInput.
Record State := mkState {
  text : jstring;
  selectedImage : option jstring;
  showImageMenu : bool
}.

(** [text.trim() !== '' || selectedImage !== null] *)
Definition hasInput (st : State) : bool :=
  negb (bool_decide (trim (text st) = [])) || bool_decide (selectedImage st ≠ None).

(** [handleSubmit]: what is handed to [onSend], if anything, and the state
    of the input afterwards. *)
Definition handleSubmit (disabled : bool) (st : State)
  : option (jstring * option jstring) * State :=
  if negb (hasInput st) || disabled then (None, st)
  else (Some (text st, imageGiven (selectedImage st)), mkState [] None false).
End ChatInput.

(** [disabled={!activeSessionId || isTyping}] *)
Definition inputDisabled (w : World) : bool :=
  negb (bool_decide (activeTarget w ≠ None)) || isTyping w.

(** The input wired to the hook: [<ChatInput onSend={handleSend} disabled={...} />]. *)
Definition submitMessage (st : ChatInput.State) (w : World)
  : async World unit * ChatInput.State :=
  match ChatInput.handleSubmit (inputDisabled w) st with
  | (Some (text, image), st') => (handleSend text image w, st')
  | (None, st') => (Settled (Return ()) w, st')
  end.

(** ** What a user can do, one event after the other

    Each handler is followed by the save effect; a send runs to its end
    before the next event. *)

Inductive UserEvent :=
  | EvNewChat (uuid : jstring) (now : Z)
  | EvSelect (index : nat)
  | EvClear
  | EvMenu (action : MenuAction) (target : jstring) (confirmed : bool)
      (answer : option jstring) (uuid : jstring) (now : Z)
  | EvSend (generate : Collaborator) (text : jstring) (image : option jstring)
      (o : ApiOutcome).

Definition stepEvent (w : World) (ev : UserEvent) : completion unit * World :=
  let '(c, w') :=
    match ev with
    | EvNewChat uuid now => (Return (), handleCreateSession uuid now w)
    | EvSelect index => (Return (), selectListed index w)
    | EvClear => (Return (), handleClearSession w)
    | EvMenu action target confirmed answer uuid now =>
        (handleAction action target confirmed answer uuid now w).1
    | EvSend generate text image o => (Return (), sendWith generate text image o w)
    end in
  (c, saveEffect w').

Definition runEvents (events : list UserEvent) (w : World) : World :=
  fold_left (λ w ev, (stepEvent w ev).2) events w.

(** The mount: the load effect, then the save effect. *)
Definition mount (uuid : jstring) (now : Z) (w : World) : World :=
  saveEffect (loadEffect uuid now w).

(** What the handlers keep of the list and the active identifier: there is
    a session, the identifiers are distinct, the active identifier is one of
    them. *)
Definition coherent (w : World) : Prop :=
  sessions w ≠ []
  ∧ NoDup (List.map id (sessions w))
  ∧ (∃ a, activeSessionId w = Some a ∧ a ∈ List.map id (sessions w)).

(** The state the handlers keep: there is a session, the identifiers are
    distinct, the active identifier is one of them, and what is stored is the
    list. *)
Definition consistent (w : World) : Prop :=
  sessions w ≠ []
  ∧ NoDup (List.map id (sessions w))
  ∧ (∃ a, activeSessionId w = Some a ∧ a ∈ List.map id (sessions w))
  ∧ storage w = Some (sessions w).

(** The draws of [randomUUID] in a run are new: a new chat never takes the
    identifier of a listed session. *)
Fixpoint freshDraws (events : list UserEvent) (w : World) : Prop :=
  match events with
  | [] => True
  | ev :: rest =>
      match ev with
      | EvNewChat uuid _ => uuid ∉ List.map id (sessions w)
      | _ => True
      end
      ∧ freshDraws rest (stepEvent w ev).2
  end.

(** No handler of the run ends with an exception. *)
Fixpoint allReturn (events : list UserEvent) (w : World) : Prop :=
  match events with
  | [] => True
  | ev :: rest => (stepEvent w ev).1 = Return () ∧ allReturn rest (stepEvent w ev).2
  end.

(** ** Login form ([src/components/LoginForm.tsx]) *)

Module LoginForm.
(** One code unit of [[a-zA-Z0-9]] *)
Definition isAlphanumeric (c : codeunit) : bool :=
  (((97 <=? c) && (c <=? 122)) || ((65 <=? c) && (c <=? 90))
   || ((48 <=? c) && (c <=? 57)))%N.

(** [/^[a-zA-Z0-9]+$/.test(s)] *)
Definition usernameRegexTest (s : jstring) : bool :=
  negb (bool_decide (s = [])) && forallb isAlphanumeric s.

Record Errors := mkErrors { usernameError : jstring; passwordError : jstring; formError : jstring }.

(** [validate]: [isValid] and [newErrors] *)
Definition validate (username password : jstring) : bool * Errors :=
  let '(usernameError, usernameOk) :=
    if bool_decide (username = []) then (lit "Username is required", false)
    else if (length username <? 4)%nat
         then (lit "Username must be at least 4 characters", false)
    else if negb (usernameRegexTest username)
         then (lit "Username must be alphanumeric", false)
    else ([], true) in
  let '(passwordError, passwordOk) :=
    if bool_decide (password = []) then (lit "Password is required", false)
    else if (length password <? 6)%nat
         then (lit "Password must be at least 6 characters", false)
    else ([], true) in
  (usernameOk && passwordOk, mkErrors usernameError passwordError []).

(** [handleSubmit]: whether [onSuccess] is called, and the errors shown. *)
Definition handleSubmit (username password : jstring) (errors : Errors) : bool * Errors :=
  if negb (validate username password).1 then (false, errors)
  else if bool_decide (username = lit "user") && bool_decide (password = lit "user123")
       then (true, errors)
  else (false, mkErrors (usernameError errors) (passwordError errors)
                 (lit "Invalid credentials")).
End LoginForm.

(** * Properties *)

(** ** Strings *)

Lemma split_cons_line (l rest : jstring) :
  LF ∉ l → split LF (l ++ LF :: rest) = l :: split LF rest.
Proof.
  induction l as [|c l IH]; intros Hl; simpl.
  - done.
  - apply not_elem_of_cons in Hl as [Hc Hl].
    destruct (N.eqb_spec c LF) as [->|_]; [done|].
    by rewrite IH.
Qed.

Lemma trimStart_blank (s : jstring) : trimStart (32%N :: s) = trimStart s.
Proof. done. Qed.

Lemma trim_blank (s : jstring) : trim (32%N :: s) = trim s.
Proof. done. Qed.

(** ** Markdown interchange *)

Lemma export_loop (ms : list Message) (acc : jstring) :
  fold_left exportMessage ms acc
  = acc ++ concat (List.map (λ m, exportedLine m ++ [LF; LF]) ms).
Proof.
  revert acc. induction ms as [|m ms IH]; intros acc; simpl.
  - by rewrite app_nil_r.
  - rewrite IH. unfold exportMessage, exportedLine.
    by rewrite <- !app_assoc.
Qed.

Lemma export_unfold (S : ChatSession) :
  exportSessionToMarkdown S
  = (lit "# " ++ title S) ++ LF :: LF
    :: concat (List.map (λ m, exportedLine m ++ [LF; LF]) (messages S)).
Proof.
  unfold exportSessionToMarkdown. rewrite export_loop.
  by rewrite <- !app_assoc.
Qed.

Lemma parseLine_messages (t : jstring) (ms : list Message) (line : jstring) :
  snd (parseLine (t, ms) line) = ms ++ lineMessages line.
Proof.
  unfold lineMessages, parseLine.
  destruct (startsWith line (lit "**User**:")), (startsWith line (lit "**AI**:"));
    simpl; by rewrite ?app_nil_r, <- ?app_assoc.
Qed.

Lemma parseLine_title (t : jstring) (ms : list Message) (line : jstring) :
  fst (parseLine (t, ms) line) = default t (lineTitle line).
Proof.
  unfold lineTitle, parseLine. by destruct (startsWith line (lit "# ")).
Qed.

Lemma parse_loop (lines : list jstring) (t : jstring) (ms : list Message) :
  fold_left parseLine lines (t, ms)
  = (default t (last (omap lineTitle lines)),
     ms ++ concat (List.map lineMessages lines)).
Proof.
  revert t ms. induction lines as [|line lines IH]; intros t ms.
  - simpl. by rewrite app_nil_r.
  - change (fold_left parseLine (line :: lines) (t, ms))
      with (fold_left parseLine lines (parseLine (t, ms) line)).
    pose proof (parseLine_messages t ms line) as Hm.
    pose proof (parseLine_title t ms line) as Ht.
    destruct (parseLine (t, ms) line) as [t' ms']. simpl in Hm, Ht. subst t' ms'.
    rewrite IH.
    replace (omap lineTitle (line :: lines))
      with (match lineTitle line with
            | Some y => y :: omap lineTitle lines
            | None => omap lineTitle lines
            end) by done.
    cbn [List.map concat]. rewrite <- app_assoc. f_equal.
    destruct (lineTitle line) as [t'|]; cbn [default]; [|done].
    rewrite last_cons. by destruct (last (omap lineTitle lines)).
Qed.

Lemma lineMessages_nil (line : jstring) :
  lineMessages line = []
  ↔ startsWith line (lit "**User**:") = false ∧ startsWith line (lit "**AI**:") = false.
Proof.
  unfold lineMessages, parseLine.
  destruct (startsWith line (lit "**User**:")), (startsWith line (lit "**AI**:"));
    simpl; (split; [try done; by intros [=]|by intros [[=] [=]] || done]).
Qed.

Lemma concat_nil_Forall {A} (ls : list (list A)) :
  concat ls = [] ↔ Forall (λ l, l = []) ls.
Proof.
  induction ls as [|l ls IH]; simpl.
  - split; [constructor|done].
  - rewrite Forall_cons, <- IH. split.
    + by intros [-> ->]%app_eq_nil.
    + by intros [-> ->].
Qed.

Lemma import_messages (uuid : jstring) (now : Z) (markdown : jstring) :
  parseMarkdownToSession uuid now markdown
  = let lines := split LF markdown in
    match concat (List.map lineMessages lines) with
    | [] => None
    | ms => Some {| id := uuid;
                    title := default (lit "Imported Chat") (last (omap lineTitle lines));
                    messages := ms; createdAt := now |}
    end.
Proof.
  unfold parseMarkdownToSession. rewrite parse_loop. cbn [app].
  by destruct (concat _).
Qed.

(** The title an import gives is the one of the last heading line. *)
Lemma import_title (uuid : jstring) (now : Z) (markdown : jstring) (S : ChatSession) :
  parseMarkdownToSession uuid now markdown = Some S →
  title S = default (lit "Imported Chat") (last (omap lineTitle (split LF markdown))).
Proof.
  rewrite import_messages. cbn zeta.
  destruct (concat _); [done|]. by intros [= <-].
Qed.

Lemma exportedLine_no_LF (m : Message) : LF ∉ content m → LF ∉ exportedLine m.
Proof.
  intros Hc. unfold exportedLine.
  rewrite !elem_of_app. intros [H|[H|[H|H]]]; [| |  |done].
  - revert H. compute_done.
  - destruct (role m); revert H; compute_done.
  - revert H. compute_done.
Qed.

Lemma split_exported (ms : list Message) :
  Forall (λ m, LF ∉ content m) ms →
  split LF (concat (List.map (λ m, exportedLine m ++ [LF; LF]) ms))
  = concat (List.map (λ m, [exportedLine m; []]) ms) ++ [[]].
Proof.
  induction 1 as [|m ms Hm _ IH]; [done|].
  cbn [List.map concat]. rewrite <- app_assoc. cbn [app].
  rewrite split_cons_line by by apply exportedLine_no_LF.
  by rewrite <- IH.
Qed.

Lemma lineTitle_exported (m : Message) : lineTitle (exportedLine m) = None.
Proof. by destruct m as [[] c i]. Qed.

Lemma lineMessages_exported (m : Message) :
  trimmed (content m) → lineMessages (exportedLine m) = [withoutImage m].
Proof.
  destruct m as [[] c i]; unfold trimmed, withoutImage; cbn [content role]; intros Hc.
  - change (lineMessages (exportedLine (mkMessage user c i)))
      with [mkMessage user (trim (32%N :: c)) None].
    by rewrite trim_blank, Hc.
  - change (lineMessages (exportedLine (mkMessage ai c i)))
      with [mkMessage ai (trim (32%N :: c)) None].
    by rewrite trim_blank, Hc.
Qed.

Lemma exported_lines_messages (ms : list Message) :
  Forall (λ m, trimmed (content m)) ms →
  concat (List.map lineMessages (concat (List.map (λ m, [exportedLine m; []]) ms) ++ [[]]))
  = List.map withoutImage ms.
Proof.
  induction 1 as [|m ms Hm _ IH]; [done|].
  cbn [List.map concat app]. rewrite lineMessages_exported by done.
  cbn [List.map concat app] in IH. by rewrite <- IH.
Qed.

Lemma exported_lines_titles (ms : list Message) :
  omap lineTitle (concat (List.map (λ m, [exportedLine m; []]) ms) ++ [[]]) = [].
Proof.
  induction ms as [|m ms IH]; [done|].
  cbn [List.map concat app].
  replace (omap lineTitle (exportedLine m :: [] :: (concat (List.map (λ m, [exportedLine m; []]) ms) ++ [[]])))
    with (match lineTitle (exportedLine m) with
          | Some y => y :: omap lineTitle (concat (List.map (λ m, [exportedLine m; []]) ms) ++ [[]])
          | None => omap lineTitle (concat (List.map (λ m, [exportedLine m; []]) ms) ++ [[]])
          end) by done.
  by rewrite lineTitle_exported.
Qed.

(** C9. An import fails exactly when no line of the text starts with
    [**User**:] or [**AI**:]; whatever else the text holds never makes it
    fail. *)
Theorem import_fails_iff_no_message_line (uuid : jstring) (now : Z) (markdown : jstring) :
  parseMarkdownToSession uuid now markdown = None
  ↔ Forall (λ line, startsWith line (lit "**User**:") = false
                    ∧ startsWith line (lit "**AI**:") = false)
           (split LF markdown).
Proof.
  rewrite import_messages. cbn zeta.
  rewrite <- (Forall_iff (λ line, lineMessages line = [])) by apply lineMessages_nil.
  rewrite <- Forall_fmap with (f := lineMessages) (P := λ l, l = []).
  rewrite <- concat_nil_Forall.
  by destruct (concat _).
Qed.

(** C4, at the input where the code leaves the claim: of two heading lines
    the importer keeps the second, not the first.  ([import_title] gives the
    rule: the last heading line sets the title.) *)
Theorem import_title_of_two_headings :
  title <$> parseMarkdownToSession sampleId 1000 twoHeadings = Some (lit "Second")
  ∧ omap lineTitle (split LF twoHeadings) = [lit "First"; lit "Second"].
Proof. split; reflexivity. Qed.

(** What an import makes of an export: the title and, in order, the role and
    the text of each message, under a new identifier and time, provided there
    is a message and neither the title nor a text holds a line feed or
    leading or trailing white space.  How a text starts plays no part: a
    line of the export starts with the exporter's own prefix. *)
Lemma import_of_export (uuid : jstring) (now : Z) (S : ChatSession) :
  messages S ≠ [] →
  LF ∉ title S →
  trimmed (title S) →
  Forall (λ m, LF ∉ content m) (messages S) →
  Forall (λ m, trimmed (content m)) (messages S) →
  parseMarkdownToSession uuid now (exportSessionToMarkdown S)
  = Some {| id := uuid; title := title S;
            messages := List.map withoutImage (messages S); createdAt := now |}.
Proof.
  intros Hne HLF Htrim HLFs Htrims.
  rewrite import_messages, export_unfold. cbn zeta.
  rewrite split_cons_line
    by (rewrite elem_of_app; intros [H|H]; [revert H; compute_done|done]).
  change (split LF (LF :: ?rest)) with ([] :: split LF rest).
  rewrite split_exported by done.
  set (body := concat (List.map (λ m, [exportedLine m; []]) (messages S)) ++ [[]]).
  change (concat (List.map lineMessages ((lit "# " ++ title S) :: [] :: body)))
    with (concat (List.map lineMessages body)).
  change (omap lineTitle ((lit "# " ++ title S) :: [] :: body))
    with (trim (title S) :: omap lineTitle body).
  subst body. rewrite exported_lines_messages, exported_lines_titles by done.
  cbn [last default]. rewrite Htrim.
  destruct (messages S); [done|]. done.
Qed.

(** C3, as amended.  A session of the kind the specification names (no
    message text holds a line feed or starts with [**User**:] or [**AI**:])
    that moreover has at least one message, a title without line feed, and
    no leading or trailing white space in its title and message texts, is
    imported back from its export: the import succeeds and gives the title
    and, in order, the role and the text of every message. *)
Theorem import_export_roundtrip (uuid : jstring) (now : Z) (S : ChatSession) :
  roundTripDomainAsSpecified S →
  messages S ≠ [] →
  LF ∉ title S →
  trimmed (title S) →
  Forall (λ m, trimmed (content m)) (messages S) →
  roundTrips uuid now S.
Proof.
  intros Hdom Hne HLF Htrim Htrims. unfold roundTrips.
  rewrite import_of_export; [|done|done|done| |done].
  - eexists. split; [done|]. cbn [title messages].
    rewrite !List.map_map. split; [done|]. split; reflexivity.
  - eapply Forall_impl; [exact Hdom|]. by intros m [H _].
Qed.

(** The round trip on a session of two messages. *)
Lemma import_export_roundtrip_witness : roundTrips otherId 2000 sampleSession.
Proof.
  apply (import_export_roundtrip otherId 2000 sampleSession).
  - repeat constructor; compute_done.
  - discriminate.
  - compute_done.
  - reflexivity.
  - repeat constructor.
Defined.

(** C3, as the specification states it, fails: a session without messages is
    exported to a text that is not imported at all, a text or a title with a
    leading blank comes back without it, and a title of two lines comes back
    as its second line when that one is a heading. *)
Lemma roundtrip_as_specified_fails :
  (roundTripDomainAsSpecified emptySession ∧ ¬ roundTrips otherId 2000 emptySession)
  ∧ (roundTripDomainAsSpecified paddedSession ∧ ¬ roundTrips otherId 2000 paddedSession)
  ∧ (roundTripDomainAsSpecified paddedTitleSession
     ∧ ¬ roundTrips otherId 2000 paddedTitleSession)
  ∧ (roundTripDomainAsSpecified newlineTitleSession
     ∧ ¬ roundTrips otherId 2000 newlineTitleSession).
Proof.
  repeat split.
  - constructor.
  - intros (S' & H & _). discriminate H.
  - repeat constructor. compute_done.
  - intros (S' & H & _ & _ & Hc). vm_compute in H. injection H as <-.
    discriminate Hc.
  - repeat constructor. compute_done.
  - intros (S' & H & Ht & _). vm_compute in H. injection H as <-.
    discriminate Ht.
  - repeat constructor. compute_done.
  - intros (S' & H & Ht & _). vm_compute in H. injection H as <-.
    discriminate Ht.
Qed.

(** ** Session list: create and delete *)

Lemma handleCreateSession_sessions (uuid : jstring) (now : Z) (w : World) :
  sessions (handleCreateSession uuid now w)
  = createSession uuid now :: take 9 (sessions w).
Proof. done. Qed.

Lemma createStep_sessions (w : World) (draw : jstring * Z) :
  sessions (createStep w draw) = createSession draw.1 draw.2 :: take 9 (sessions w).
Proof. done. Qed.

Lemma createStep_storage (w : World) (draw : jstring * Z) :
  storage (createStep w draw) = Some (sessions (createStep w draw)).
Proof. done. Qed.

Lemma createAll_snoc (draws : list (jstring * Z)) (draw : jstring * Z) (w : World) :
  createAll (draws ++ [draw]) w = createStep (createAll draws w) draw.
Proof. unfold createAll. by rewrite fold_left_app. Qed.

(** C6. After every [createSession] request of a run, whatever the store
    held before: at most 10 sessions are kept and stored, the session just
    created is the first and the active one, the sessions kept behind it are
    the 9 most recent of the earlier ones in their order, and at the cap it
    is the last, oldest, session that goes. *)
Theorem create_sessions_capped (w : World) (draws : list (jstring * Z))
    (uuid : jstring) (now : Z) :
  let before := createAll draws w in
  let after := createAll (draws ++ [(uuid, now)]) w in
  length (sessions after) ≤ 10
  ∧ storage after = Some (sessions after)
  ∧ head (sessions after) = Some (createSession uuid now)
  ∧ activeSessionId after = Some uuid
  ∧ sessions after = createSession uuid now :: take 9 (sessions before)
  ∧ ∀ kept oldest, sessions before = kept ++ [oldest] → length kept = 9 →
      sessions after = createSession uuid now :: kept.
Proof.
  cbn zeta. rewrite createAll_snoc.
  set (before := createAll draws w).
  rewrite createStep_storage, createStep_sessions. cbn [fst snd].
  repeat split.
  - cbn [length]. rewrite length_take. lia.
  - intros kept oldest -> Hlen. by rewrite take_app_length'.
Qed.

(** An eleventh session created in a store of ten: the first of the ten, the
    oldest, is the one that goes. *)
Lemma create_sessions_capped_witness :
  let before := createAll tenDraws freshWorld in
  let after := createAll (tenDraws ++ [(otherId, 77%Z)]) freshWorld in
  length (sessions before) = 10
  ∧ length (sessions after) = 10
  ∧ sessions after = createSession otherId 77 :: take 9 (sessions before)
  ∧ last (sessions before) = Some (createSession (lit "s") 0)
  ∧ createSession (lit "s") 0 ∉ sessions after.
Proof.
  pose proof (create_sessions_capped freshWorld tenDraws otherId 77) as H.
  cbn zeta in *. destruct H as (_ & _ & _ & _ & Heq & Hevict).
  split; [reflexivity|]. split; [reflexivity|]. split; [exact Heq|].
  split; [reflexivity|].
  rewrite (Hevict (take 9 (sessions (createAll tenDraws freshWorld)))
             (createSession (lit "s") 0) eq_refl eq_refl).
  compute_done.
Defined.



(** ** The message cap *)

Lemma trimmedMessages_drop (l : list Message) :
  trimmedMessages l = drop (length l - MAX_MESSAGES) l.
Proof.
  unfold trimmedMessages.
  destruct (Nat.ltb_spec MAX_MESSAGES (length l)) as [H|H]; [done|].
  by replace (length l - MAX_MESSAGES) with 0 by lia.
Qed.

Lemma length_trimmedMessages (l : list Message) :
  length (trimmedMessages l) = length l `min` MAX_MESSAGES.
Proof. rewrite trimmedMessages_drop, length_drop. lia. Qed.


(** The cap on the two paths that trim: after the user turn and after the
    assistant turn of a successful generation, the list holds at most 50
    messages, and they are the most recent ones in their order. *)
Lemma trimmed_turn_capped (l : list Message) (m : Message) :
  length (trimmedMessages (l ++ [m])) ≤ MAX_MESSAGES
  ∧ trimmedMessages (l ++ [m]) = drop (length (l ++ [m]) - MAX_MESSAGES) (l ++ [m]).
Proof. rewrite length_trimmedMessages, <- trimmedMessages_drop. split; [lia|done]. Qed.

(** ** The updaters of [handleSend] *)

Lemma findSession_map (f : ChatSession → ChatSession) (a : jstring) (l : list ChatSession) :
  (∀ s, id (f s) = id s) →
  findSession a (List.map f l) = f <$> findSession a l.
Proof.
  intros Hid. unfold findSession. induction l as [|s l IH]; [done|].
  cbn [List.map find]. rewrite Hid.
  by destruct (bool_decide (id s = a)).
Qed.

Lemma id_addUserMessage a text m s : id (addUserMessage a text m s) = id s.
Proof. unfold addUserMessage. by case_bool_decide. Qed.

Lemma id_addAiMessage a m s : id (addAiMessage a m s) = id s.
Proof. unfold addAiMessage. by case_bool_decide. Qed.

Lemma id_addErrorMessage a m s : id (addErrorMessage a m s) = id s.
Proof. unfold addErrorMessage. by case_bool_decide. Qed.

Lemma title_addAiMessage a m s : title (addAiMessage a m s) = title s.
Proof. unfold addAiMessage. by case_bool_decide. Qed.

Lemma title_addErrorMessage a m s : title (addErrorMessage a m s) = title s.
Proof. unfold addErrorMessage. by case_bool_decide. Qed.

Lemma findSession_id (a : jstring) (l : list ChatSession) (s : ChatSession) :
  findSession a l = Some s → id s = a.
Proof.
  unfold findSession. intros [_ H]%find_some.
  by apply bool_decide_eq_true in H.
Qed.

(** What the source computes for the derived title is what the
    specification describes. *)
Lemma derivedTitle_spec (text : jstring) :
  derivedTitle text
  = if bool_decide (text = []) then lit "Image Analysis"
    else take 30 text ++ (if bool_decide (30 < length text) then lit "..." else []).
Proof.
  unfold derivedTitle, slice0. destruct text as [|c text]; [done|].
  rewrite (bool_decide_eq_false_2 (c :: text = [])) by done. cbn [negb andb].
  destruct (Nat.ltb_spec 30 (length (c :: text))).
  - by rewrite bool_decide_eq_true_2.
  - by rewrite bool_decide_eq_false_2 by lia.
Qed.

Lemma title_addUserMessage (a text : jstring) (m : Message) (s : ChatSession) :
  title (addUserMessage a text m s) = titleAfterSendAsSpecified (Some a) text s.
Proof.
  unfold addUserMessage, titleAfterSendAsSpecified.
  case_bool_decide; [|done]. cbn [andb title].
  rewrite derivedTitle_spec.
  destruct (messages s) as [|m0 ms]; [|done].
  cbn [length Nat.eqb andb]. rewrite (bool_decide_eq_true_2 ([] = [])) by done.
  done.
Qed.


(** ** [handleSend], run with nothing interleaved *)

Lemma sendWith_unfold (generate : Collaborator) (text : jstring)
    (image : option jstring) (o : ApiOutcome) (w : World) (a : jstring) :
  activeTarget w = Some a →
  sendWith generate text image o w
  = let history :=
      match findSession a (sessions w) with Some s => messages s | None => [] end in
    let result := runAsync (generate (fullPrompt history text) image (env w)) o in
    afterGenerate a result.1
      (setEnv result.2
         (setIsTyping true
            (setSessions (List.map (addUserMessage a text (mkMessage user text image))) w))).
Proof.
  intros Ha. unfold sendWith, handleSendWith. rewrite Ha. cbn zeta.
  cbn [env setIsTyping setSessions].
  destruct (generate _ image (env w)) as [c e|e request resume]; cbn [runAsync fst snd].
  - done.
  - cbn [env setEnv]. by destruct (resume o e).
Qed.

Lemma sendWith_idle (generate : Collaborator) (text : jstring)
    (image : option jstring) (o : ApiOutcome) (w : World) :
  activeTarget w = None → sendWith generate text image o w = w.
Proof. intros Ha. unfold sendWith, handleSendWith. by rewrite Ha. Qed.

Lemma activeTarget_sendWith (generate : Collaborator) (text : jstring)
    (image : option jstring) (o : ApiOutcome) (w : World) :
  activeTarget (sendWith generate text image o w) = activeTarget w.
Proof.
  destruct (activeTarget w) as [a|] eqn:Ha.
  - rewrite (sendWith_unfold _ _ _ _ _ a Ha). cbn zeta.
    unfold afterGenerate. by destruct (runAsync _ _).1.
  - by rewrite sendWith_idle.
Qed.

(** The session list after a send: every session went through the user-turn
    updater, then through the one of the assistant turn, which is the
    success one or the error one. *)
Lemma sessions_sendWith (generate : Collaborator) (text : jstring)
    (image : option jstring) (o : ApiOutcome) (w : World) (a : jstring) :
  activeTarget w = Some a →
  ∃ g, (g = addErrorMessage a (mkMessage ai SORRY None)
        ∨ ∃ aiText, g = addAiMessage a (mkMessage ai aiText None))
       ∧ sessions (sendWith generate text image o w)
         = List.map (λ s, g (addUserMessage a text (mkMessage user text image) s))
             (sessions w).
Proof.
  intros Ha. rewrite (sendWith_unfold _ _ _ _ _ a Ha). cbn zeta.
  unfold afterGenerate. destruct (runAsync _ _).1 as [aiText|error].
  - exists (addAiMessage a (mkMessage ai aiText None)). split; [eauto|].
    cbn [sessions setIsTyping setSessions setEnv]. by rewrite List.map_map.
  - exists (addErrorMessage a (mkMessage ai SORRY None)). split; [eauto|].
    cbn [sessions setIsTyping setSessions setEnv]. by rewrite List.map_map.
Qed.

Lemma titles_sendWith (generate : Collaborator) (text : jstring)
    (image : option jstring) (o : ApiOutcome) (w : World) :
  List.map title (sessions (sendWith generate text image o w))
  = List.map (titleAfterSendAsSpecified (activeTarget w) text) (sessions w).
Proof.
  destruct (activeTarget w) as [a|] eqn:Ha.
  - destruct (sessions_sendWith generate text image o w a Ha) as (g & Hg & ->).
    rewrite List.map_map. apply List.map_ext. intros s.
    rewrite <- (title_addUserMessage a text (mkMessage user text image) s).
    destruct Hg as [->|[aiText ->]];
      [apply title_addErrorMessage|apply title_addAiMessage].
  - by rewrite sendWith_idle.
Qed.





(** The two sends the specification gives as examples. *)
Example title_of_long_opening :
  List.map title
    (sessions (sendWith (throwingStub networkDown)
                 (lit "Hello world this is a fairly long opening message") None
                 (Rejected networkDown) freshWorld))
  = [lit "Hello world this is a fairly l..."].
Proof. by vm_compute. Qed.

Example title_of_image_only :
  List.map title
    (sessions (sendWith (throwingStub networkDown) [] (Some (lit "data:image/png;base64,AA"))
                 (Rejected networkDown) freshWorld))
  = [lit "Image Analysis"].
Proof. by vm_compute. Qed.

Lemma isTyping_sendWith (generate : Collaborator) (text : jstring)
    (image : option jstring) (o : ApiOutcome) (w : World) (a : jstring) :
  activeTarget w = Some a →
  isTyping (sendWith generate text image o w) = false.
Proof.
  intros Ha. rewrite (sendWith_unfold _ _ _ _ _ a Ha). cbn zeta.
  unfold afterGenerate. by destruct (runAsync _ _).1.
Qed.

(** C5. With a target session, the awaiting-response flag is [false] once
    the send is over, however the collaborator's call ended; and when that
    call threw, the session's list is the one the user turn left, followed by
    one assistant message whose text is the fixed error text. *)
Theorem send_when_collaborator_throws (generate : Collaborator) (text : jstring)
    (image : option jstring) (o : ApiOutcome) (w : World) (a : jstring)
    (s : ChatSession) :
  activeTarget w = Some a →
  findSession a (sessions w) = Some s →
  let w' := sendWith generate text image o w in
  isTyping w' = false
  ∧ ∀ error,
      (runAsync (generate (fullPrompt (messages s) text) image (env w)) o).1 = Throw error →
      messagesOf a w'
      = Some (trimmedMessages (messages s ++ [mkMessage user text image])
              ++ [mkMessage ai SORRY None]).
Proof.
  intros Ha Hs. cbn zeta. split; [by eapply isTyping_sendWith|].
  intros error Hthrow. unfold messagesOf.
  rewrite (sendWith_unfold _ _ _ _ _ a Ha), Hs. cbn zeta. rewrite Hthrow.
  unfold afterGenerate. cbn [sessions setIsTyping setSessions setEnv].
  rewrite !findSession_map, Hs
    by (intros; apply id_addErrorMessage || apply id_addUserMessage).
  cbn [fmap option_fmap option_map].
  pose proof (findSession_id _ _ _ Hs) as Hid.
  unfold addErrorMessage. rewrite bool_decide_eq_true_2 by by rewrite id_addUserMessage.
  unfold addUserMessage. by rewrite bool_decide_eq_true_2 by done.
Qed.

(** A send on a session of two messages with a collaborator that throws. *)
Lemma send_when_collaborator_throws_witness :
  let w' := sendWith (throwingStub networkDown) (lit "hi") None (Rejected networkDown)
              (worldOf [sampleSession] sampleId) in
  isTyping w' = false
  ∧ messagesOf sampleId w' = Some [hi; hello; hi; mkMessage ai SORRY None].
Proof.
  pose proof (send_when_collaborator_throws (throwingStub networkDown) (lit "hi") None
                (Rejected networkDown) (worldOf [sampleSession] sampleId)
                sampleId sampleSession eq_refl eq_refl) as [Htyping Hmessages].
  split; [exact Htyping|].
  exact (Hmessages networkDown eq_refl).
Defined.

(** C1, at the input where the code leaves the claim: a session that holds
    50 messages, and a collaborator that throws.  The user turn trims the
    list to 50; the error turn appends without trimming, and 51 messages
    stay. *)
Theorem send_failure_exceeds_cap :
  let w' := sendWith (throwingStub networkDown) (lit "hi") None (Rejected networkDown)
              fullWorld in
  length <$> messagesOf sampleId fullWorld = Some 50
  ∧ length <$> messagesOf sampleId w' = Some 51
  ∧ messagesOf sampleId w'
    = Some (replicate 49 hi ++ [hi; mkMessage ai SORRY None]).
Proof. cbn zeta. repeat split; by vm_compute. Qed.

(** ** The generation module *)

Lemma filter_sendError_logTo (entry : logEntry) (e : Env) :
  isSendError entry = false →
  List.filter isSendError (console (logTo entry e)) = List.filter isSendError (console e).
Proof.
  intros H. cbn [console logTo]. rewrite List.filter_app. cbn [List.filter].
  by rewrite H, app_nil_r.
Qed.

Lemma readResponse_frame (response : jsval) (e : Env) :
  isGenerating (readResponse response e).2 = isGenerating e
  ∧ puterLoaded (readResponse response e).2 = puterLoaded e
  ∧ List.filter isSendError (console (readResponse response e).2)
    = List.filter isSendError (console e).
Proof.
  unfold readResponse.
  repeat case_match; simplify_eq; cbn [fst snd];
    try done; (repeat split; [done..|by apply filter_sendError_logTo]).
Qed.

Section Generate_facts.
Variable JSON_stringify : jsval → completion jstring.

Lemma catchBlock_returns (error : jsval) (e : Env) :
  ∃ reply, Generate.catchBlock JSON_stringify error e
           = (Return reply, logTo (LogGenerationError error) e).
Proof. unfold Generate.catchBlock. eauto. Qed.

End Generate_facts.





(** ** A second send while a generation call is unresolved *)

Lemma handleSendWith_turnedAway (generate : Collaborator) (text : jstring)
    (image : option jstring) (w : World) (a : jstring) (s : ChatSession) :
  activeTarget w = Some a →
  findSession a (sessions w) = Some s →
  (∀ p, generate p image (env w) = Settled (Return PLEASE_WAIT) (env w)) →
  turnedAway a s text image w (handleSendWith generate text image w).
Proof.
  intros Ha Hs Hguard. unfold turnedAway, handleSendWith. rewrite Ha. cbn zeta.
  cbn [env setIsTyping setSessions]. rewrite Hguard.
  eexists. split; [reflexivity|]. split; [done|]. split; [done|].
  unfold messagesOf, afterGenerate. cbn [sessions setIsTyping setSessions setEnv].
  rewrite !findSession_map, Hs
    by (intros; apply id_addAiMessage || apply id_addUserMessage).
  cbn [fmap option_fmap option_map].
  pose proof (findSession_id _ _ _ Hs) as Hid.
  unfold addAiMessage. rewrite bool_decide_eq_true_2 by by rewrite id_addUserMessage.
  unfold addUserMessage. by rewrite bool_decide_eq_true_2 by done.
Qed.

(** C2, as amended.  A send issued while a generation call is unresolved is
    over at once: [generateResponse] returns the wait notice without a
    request and leaves the guard set.  The send has appended its user message
    before that, and appends the wait notice after it as an assistant
    message; it clears the typing flag.  This holds with either revision of
    [generateResponse]. *)
Theorem second_send_turned_away (JSON_stringify : jsval → completion jstring)
    (modelOf imageOf : option jstring → option jstring)
    (text : jstring) (image : option jstring) (w : World)
    (a : jstring) (s : ChatSession) :
  activeTarget w = Some a →
  findSession a (sessions w) = Some s →
  isGenerating (env w) = true →
  turnedAway a s text image w (handleSend text image w)
  ∧ turnedAway a s text image w
      (handleSendWith (withModel JSON_stringify modelOf imageOf) text image w).
Proof.
  intros Ha Hs Hg. split.
  - apply handleSendWith_turnedAway; [done..|].
    intros p. unfold GenerateLegacy.generateResponse. by rewrite Hg.
  - apply handleSendWith_turnedAway; [done..|].
    intros p. unfold withModel, Generate.generateResponse. by rewrite Hg.
Qed.

(** A second send in the world a first send has left with its call
    unresolved. *)
Lemma second_send_turned_away_witness :
  isGenerating (env sendingWorld) = true
  ∧ turnedAway sampleId (withMessages sampleSession [hi; hello; hi])
      (lit "again") None sendingWorld (handleSend (lit "again") None sendingWorld).
Proof.
  split; [reflexivity|].
  apply (second_send_turned_away (λ _, Return (lit "{}")) (λ _, Some (lit "gpt-4o")) (λ i, i)
           (lit "again") None sendingWorld sampleId
           (withMessages sampleSession [hi; hello; hi])).
  - reflexivity.
  - reflexivity.
  - reflexivity.
Defined.

(** C2, as the specification states it, fails: the second send, issued while
    the first generation call is unresolved, appends its user message, here
    a second [hi] next to the first. *)
Lemma second_send_appends_user_message :
  ∃ w1 w2,
    pendingState (handleSend (lit "hi") None freshWorld) = Some w1
    ∧ messagesOf sampleId w1 = Some [hi]
    ∧ settledState (handleSend (lit "hi") None w1) = Some w2
    ∧ messagesOf sampleId w2 = Some [hi; hi; mkMessage ai PLEASE_WAIT None].
Proof. do 2 eexists. repeat split; by vm_compute. Qed.

(** * Further properties *)

(** ** [trim] and [split] *)

Lemma trimStart_snoc (l : jstring) (c : codeunit) :
  isWhiteSpace c = false → trimStart (l ++ [c]) = trimStart l ++ [c].
Proof.
  intros Hc. induction l as [|a l IH]; cbn [app trimStart].
  - by rewrite Hc.
  - by destruct (isWhiteSpace a).
Qed.

Lemma trimStart_head (s : jstring) :
  trimStart s = [] ∨ ∃ c r, trimStart s = c :: r ∧ isWhiteSpace c = false.
Proof.
  induction s as [|a s IH]; cbn [trimStart]; [by left|].
  destruct (isWhiteSpace a) eqn:Ha; [done|]. right. by exists a, s.
Qed.

Lemma trimStart_idem (s : jstring) : trimStart (trimStart s) = trimStart s.
Proof.
  destruct (trimStart_head s) as [->|(c & r & -> & Hc)]; [done|].
  cbn [trimStart]. by rewrite Hc.
Qed.

Lemma trim_head (s : jstring) :
  trim s = [] ∨ ∃ c r, isWhiteSpace c = false
                       ∧ trimStart s = c :: r
                       ∧ trim s = c :: reverse (trimStart (reverse r)).
Proof.
  unfold trim, trimEnd.
  destruct (trimStart_head s) as [->|(c & r & -> & Hc)]; [by left|].
  right. exists c, r. split; [done|]. split; [done|].
  rewrite reverse_cons, trimStart_snoc by done.
  by rewrite reverse_app.
Qed.

(** What [trim] gives has no white space left at either end. *)
Lemma trimmed_trim (s : jstring) : trimmed (trim s).
Proof.
  unfold trimmed.
  destruct (trim_head s) as [->|(c & r & Hc & _ & ->)]; [done|].
  unfold trim at 1, trimEnd. cbn [trimStart]. rewrite Hc.
  rewrite reverse_cons, reverse_involutive, trimStart_snoc by done.
  by rewrite trimStart_idem, reverse_app.
Qed.

Lemma elem_of_trimStart (x : codeunit) (s : jstring) : x ∈ trimStart s → x ∈ s.
Proof.
  induction s as [|a s IH]; cbn [trimStart]; [done|].
  destruct (isWhiteSpace a); [|done]. intros H. right. by apply IH.
Qed.

Lemma elem_of_trim (x : codeunit) (s : jstring) : x ∈ trim s → x ∈ s.
Proof.
  unfold trim, trimEnd. rewrite elem_of_reverse. intros H%elem_of_trimStart.
  rewrite elem_of_reverse in H. by apply elem_of_trimStart.
Qed.

Lemma split_pieces_no_sep (s : jstring) : Forall (λ piece, LF ∉ piece) (split LF s).
Proof.
  induction s as [|c s IH]; cbn [split].
  - repeat constructor. by intros ?%elem_of_nil.
  - destruct (N.eqb_spec c LF) as [->|Hc].
    + constructor; [by intros ?%elem_of_nil|done].
    + destruct (split LF s) as [|piece pieces];
        [constructor; [intros H%list_elem_of_singleton; congruence|constructor]|].
      apply Forall_cons in IH as [Hp Hps]. constructor; [|done].
      intros [H|H]%elem_of_cons; [congruence|done].
Qed.

Lemma split_nonempty (s : jstring) : split LF s ≠ [].
Proof.
  destruct s as [|c s]; cbn [split]; [done|].
  destruct (c =? LF)%N; [done|]. by destruct (split LF s).
Qed.

(** Splitting a text that is two texts joined by a line feed gives the lines
    of the first, then the lines of the second. *)
Lemma split_join (a b : jstring) :
  split LF (a ++ LF :: b) = split LF a ++ split LF b.
Proof.
  induction a as [|c a IH]; cbn [app split].
  - by rewrite N.eqb_refl.
  - destruct (N.eqb_spec c LF) as [->|Hc]; [by rewrite IH|].
    rewrite IH. pose proof (split_nonempty a). by destruct (split LF a).
Qed.

(** ** Import: what comes out, and importing twice *)

Lemma lineMessages_normal (line : jstring) :
  LF ∉ line →
  Forall (λ m, trimmed (content m) ∧ (LF ∉ content m) ∧ image m = None)
    (lineMessages line).
Proof.
  intros Hline.
  assert (∀ k, LF ∉ trim (substring k line)) as Hk.
  { intros k H%elem_of_trim. apply Hline. exact (subseteq_drop k line _ H). }
  unfold lineMessages, parseLine.
  destruct (startsWith line (lit "**User**:")), (startsWith line (lit "**AI**:"));
    cbn [snd app]; repeat constructor; cbn [content]; auto using trimmed_trim.
Qed.

Lemma lineTitle_normal (line t : jstring) :
  LF ∉ line → lineTitle line = Some t → trimmed t ∧ (LF ∉ t).
Proof.
  intros Hline. unfold lineTitle.
  destruct (startsWith line (lit "# ")); [|done]. intros [= <-].
  split; [apply trimmed_trim|].
  intros H%elem_of_trim. apply Hline. exact (subseteq_drop 2 line _ H).
Qed.

Lemma import_messages_default (uuid : jstring) (now : Z) (markdown : jstring) :
  default [] (messages <$> parseMarkdownToSession uuid now markdown)
  = concat (List.map lineMessages (split LF markdown)).
Proof. rewrite import_messages. cbn zeta. by destruct (concat _). Qed.

Lemma imported_messages_normal (markdown : jstring) :
  Forall (λ m, trimmed (content m) ∧ (LF ∉ content m) ∧ image m = None)
    (concat (List.map lineMessages (split LF markdown))).
Proof.
  apply Forall_concat, Forall_fmap.
  eapply Forall_impl; [apply split_pieces_no_sep|].
  intros line Hline. by apply lineMessages_normal.
Qed.

Lemma imported_title_normal (markdown : jstring) :
  trimmed (default (lit "Imported Chat") (last (omap lineTitle (split LF markdown))))
  ∧ (LF ∉ default (lit "Imported Chat") (last (omap lineTitle (split LF markdown)))).
Proof.
  destruct (last (omap lineTitle (split LF markdown))) as [t|] eqn:Hlast;
    cbn [default]; [|split; [done|compute_done]].
  apply last_Some_elem_of in Hlast.
  apply list_elem_of_omap in Hlast as (line & Hin & Hline).
  eapply lineTitle_normal; [|done].
  pose proof (split_pieces_no_sep markdown) as Hlines.
  by eapply Forall_forall in Hlines.
Qed.

(** X1. Whatever the text, a session that an import gives carries the
    identifier and the time drawn for it, has at least one message, and is in
    normal form: no line feed and no white space at either end in its title
    and in its message texts, and no image. *)
Theorem import_normal_form (uuid : jstring) (now : Z) (markdown : jstring)
    (S : ChatSession) :
  parseMarkdownToSession uuid now markdown = Some S →
  id S = uuid ∧ createdAt S = now
  ∧ messages S ≠ []
  ∧ trimmed (title S) ∧ (LF ∉ title S)
  ∧ Forall (λ m, trimmed (content m) ∧ (LF ∉ content m) ∧ image m = None) (messages S).
Proof.
  rewrite import_messages. cbn zeta.
  pose proof (imported_messages_normal markdown) as Hms.
  pose proof (imported_title_normal markdown) as [Ht1 Ht2].
  destruct (concat (List.map lineMessages (split LF markdown))) as [|m ms];
    [done|]. intros [= <-]. cbn [id createdAt messages title].
  by repeat split.
Qed.

(** An import of a text of two headings and one message. *)
Lemma import_normal_form_witness :
  ∃ S, parseMarkdownToSession sampleId 1000 twoHeadings = Some S
       ∧ messages S ≠ [] ∧ trimmed (title S) ∧ (LF ∉ title S).
Proof.
  eexists. split; [reflexivity|].
  pose proof (import_normal_form sampleId 1000 twoHeadings _ eq_refl)
    as (_ & _ & H1 & H2 & H3 & _).
  exact (conj H1 (conj H2 H3)).
Defined.

(** X2. Exporting what an import gave and importing that again gives the
    same session (under the same identifier and time): an imported session is
    a fixed point of export followed by import. *)
Theorem reimport_fixed_point (uuid : jstring) (now : Z) (markdown : jstring)
    (S : ChatSession) :
  parseMarkdownToSession uuid now markdown = Some S →
  parseMarkdownToSession uuid now (exportSessionToMarkdown S) = Some S.
Proof.
  rewrite (import_messages uuid now markdown). cbn zeta.
  pose proof (imported_messages_normal markdown) as Hms.
  pose proof (imported_title_normal markdown) as [Ht HLF].
  destruct (concat (List.map lineMessages (split LF markdown))) as [|m ms];
    [done|]. intros [= <-].
  rewrite import_of_export; cbn [title messages]; [|done|done|done| |].
  - do 2 f_equal.
    induction Hms as [|m0 ms0 (_ & _ & Him) _ IH]; [done|].
    cbn [List.map]. rewrite IH. f_equal.
    destruct m0 as [r c im]. cbn in Him. by subst.
  - eapply Forall_impl; [exact Hms|]. by intros m0 (_ & H & _).
  - eapply Forall_impl; [exact Hms|]. by intros m0 (H & _).
Qed.

Lemma reimport_fixed_point_witness :
  ∃ S, parseMarkdownToSession sampleId 1000 twoHeadings = Some S
       ∧ parseMarkdownToSession sampleId 1000 (exportSessionToMarkdown S) = Some S.
Proof.
  eexists. split; [reflexivity|].
  exact (reimport_fixed_point sampleId 1000 twoHeadings _ eq_refl).
Defined.

(** X3. The import of two texts joined by a line feed has the messages of
    the first followed by those of the second (none for a text that is not
    imported); so it fails only when both fail. *)
Theorem import_of_joined_texts (uuid : jstring) (now : Z) (a b : jstring) :
  default [] (messages <$> parseMarkdownToSession uuid now (a ++ LF :: b))
  = default [] (messages <$> parseMarkdownToSession uuid now a)
    ++ default [] (messages <$> parseMarkdownToSession uuid now b).
Proof.
  rewrite !import_messages_default, split_join, List.map_app.
  apply concat_app.
Qed.

(** ** Deleting, clearing, renaming *)

Lemma filter_other_ids_length (target : jstring) (l : list ChatSession) :
  NoDup (List.map id l) → target ∈ List.map id l →
  length (filter (λ s, id s ≠ target) l) = length l - 1.
Proof.
  induction l as [|s l IH]; cbn [List.map length]; [by intros _ ?%elem_of_nil|].
  intros [Hs Hl]%NoDup_cons Hin. rewrite filter_cons.
  destruct (decide (id s ≠ target)) as [Hne|Heq%dec_stable].
  - apply elem_of_cons in Hin as [?|Hin]; [congruence|].
    cbn [length]. rewrite IH by done.
    assert (0 < length l); [|lia].
    destruct l; [by apply elem_of_nil in Hin|cbn; lia].
  - subst target.
    assert (filter (λ s0, id s0 ≠ id s) l = l) as ->; [|lia].
    clear -Hs. induction l as [|s' l IH]; [done|].
    cbn [List.map] in Hs. apply not_elem_of_cons in Hs as [Hne Hs].
    rewrite filter_cons_True by done. by rewrite IH.
Qed.

Lemma findSession_filter_other (target other : jstring) (l : list ChatSession) :
  other ≠ target →
  findSession other (filter (λ s, id s ≠ target) l) = findSession other l.
Proof.
  intros Hne. unfold findSession. induction l as [|s l IH]; [done|].
  rewrite filter_cons. cbn [find].
  destruct (decide (id s ≠ target)) as [Hs|Hs%dec_stable]; cbn [find].
  - by rewrite IH.
  - rewrite IH. rewrite bool_decide_eq_false_2; [done|congruence].
Qed.

Lemma findSession_filter_target (target : jstring) (l : list ChatSession) :
  findSession target (filter (λ s, id s ≠ target) l) = None.
Proof.
  unfold findSession. induction l as [|s l IH]; [done|].
  rewrite filter_cons. destruct (decide (id s ≠ target)) as [Hs|Hs]; [|done].
  cbn [find]. by rewrite bool_decide_eq_false_2.
Qed.

(** X4. In a store of two or more sessions with distinct identifiers,
    deleting a listed session ends normally and removes that session and no
    other: the list is one shorter, the others stay as they were and in their
    order; the active session stays unless it was the deleted one, and then
    the first session left becomes active. *)
Theorem delete_listed_session (w : World) (target uuid : jstring) (now : Z) :
  NoDup (List.map id (sessions w)) →
  2 ≤ length (sessions w) →
  target ∈ List.map id (sessions w) →
  let result := handleDeleteSession target uuid now w in
  result.1 = Return ()
  ∧ sessions result.2 = filter (λ s, id s ≠ target) (sessions w)
  ∧ length (sessions result.2) = length (sessions w) - 1
  ∧ findSession target (sessions result.2) = None
  ∧ (∀ other, other ≠ target →
       findSession other (sessions result.2) = findSession other (sessions w))
  ∧ activeSessionId result.2
    = if bool_decide (Some target = activeSessionId w)
      then id <$> head (sessions result.2)
      else activeSessionId w.
Proof.
  intros Hnd Hlen Hin. cbn zeta.
  pose proof (filter_other_ids_length target (sessions w) Hnd Hin) as Hflen.
  pose proof (findSession_filter_target target (sessions w)) as Hft.
  pose proof (λ other, findSession_filter_other target other (sessions w)) as Hfo.
  unfold handleDeleteSession.
  assert ((length (sessions w) =? 1)%nat = false) as ->
    by (apply Nat.eqb_neq; lia).
  cbn [andb activeSessionId setSessions sessions].
  destruct (filter (λ s, id s ≠ target) (sessions w)) as [|f fs] eqn:Hf.
  { cbn [length] in Hflen. lia. }
  case_bool_decide as Hact;
    cbn [fst snd activeSessionId setActiveSessionId sessions setSessions
         head fmap option_fmap option_map];
    (split; [done|]); (split; [done|]); (split; [done|]);
    (split; [done|]); (split; done).
Qed.

(** Deleting the active one of two sessions. *)
Lemma delete_listed_session_witness :
  let result := handleDeleteSession sampleId (lit "77aa") 3000 twoSessions in
  result.1 = Return ()
  ∧ sessions result.2 = [createSession otherId 2000]
  ∧ activeSessionId result.2 = Some otherId.
Proof.
  pose proof (delete_listed_session twoSessions sampleId (lit "77aa") 3000) as H.
  cbn zeta in *.
  destruct H as (H1 & H2 & _ & _ & _ & H3).
  - repeat constructor; compute_done.
  - cbn. lia.
  - compute_done.
  - split; [exact H1|]. split; [exact H2|]. exact H3.
Defined.

Lemma filter_other_ids_nil (target : jstring) (l : list ChatSession) :
  filter (λ s, id s ≠ target) l = [] ↔ Forall (λ s, id s = target) l.
Proof.
  induction l as [|s l IH]; [by split; [constructor|]|].
  rewrite filter_cons, Forall_cons.
  destruct (decide (id s ≠ target)) as [Hs|Hs%dec_stable].
  - split; [done|]. by intros [? _].
  - rewrite IH. by split; [|intros [_ ?]].
Qed.

(** X5. [handleDeleteSession] ends with the [TypeError] of reading
    [newSessions[0].id] exactly when the deleted identifier is the active one
    and the filter leaves nothing, that is when every listed session carries
    that identifier and the list is not a single session: an empty list, or
    several sessions under one identifier. *)
Theorem delete_throws_iff (w : World) (target uuid : jstring) (now : Z) :
  (handleDeleteSession target uuid now w).1 = Throw TYPE_ERROR
  ↔ activeSessionId w = Some target
    ∧ Forall (λ s, id s = target) (sessions w)
    ∧ length (sessions w) ≠ 1.
Proof.
  unfold handleDeleteSession.
  destruct ((length (sessions w) =? 1)%nat
            && match sessions w with
               | s0 :: _ => bool_decide (id s0 = target)
               | [] => false
               end) eqn:Honly.
  - cbn [fst]. split; [done|]. intros (_ & _ & Hlen).
    apply andb_true_iff in Honly as [Hone%Nat.eqb_eq _]. done.
  - cbn [activeSessionId setSessions sessions].
    destruct (filter (λ s, id s ≠ target) (sessions w)) as [|f fs] eqn:Hf.
    + apply filter_other_ids_nil in Hf.
      case_bool_decide as Hact; cbn [fst].
      * split; [intros _|done]. split; [congruence|]. split; [done|].
        intros Hlen. destruct (sessions w) as [|s0 [|s1 l]]; [done| |done].
        apply Forall_cons in Hf as [Hs0 _].
        cbn [length Nat.eqb andb] in Honly.
        by rewrite bool_decide_eq_true_2 in Honly.
      * split; [done|]. intros (Ha & _). congruence.
    + case_bool_decide; cbn [fst]; (split; [done|]);
        intros (_ & Hall%filter_other_ids_nil & _); congruence.
Qed.

Lemma sessions_handleClearSession (w : World) :
  sessions (handleClearSession w)
  = List.map (λ s, if bool_decide (Some (id s) = activeTarget w)
                   then withMessages s [] else s) (sessions w).
Proof.
  unfold handleClearSession. destruct (activeTarget w) as [a|].
  - cbn [sessions setSessions]. apply List.map_ext. intros s.
    case_bool_decide as H1; case_bool_decide as H2; try done; congruence.
  - rewrite <- (List.map_id (sessions w)) at 1.
    apply List.map_ext. intros s. by rewrite bool_decide_eq_false_2.
Qed.

Lemma handleClearSession_idem (w : World) :
  handleClearSession (handleClearSession w) = handleClearSession w.
Proof.
  destruct w as [ss act typ sto en]. unfold handleClearSession, activeTarget.
  cbn [activeSessionId].
  destruct act as [[|c a]|]; cbn [activeSessionId setSessions sessions isTyping storage env];
    try done.
  unfold setSessions. cbn [activeSessionId sessions isTyping storage env].
  f_equal. rewrite List.map_map. apply List.map_ext. intros s.
  destruct (bool_decide (id s = c :: a)) eqn:H1.
  - change (id (withMessages s [])) with (id s). by rewrite H1.
  - by rewrite H1.
Qed.

(** X6. Clearing empties the message list of the active session and
    touches nothing else: titles, identifiers, creation times and the order
    of all sessions stay, as do the messages of every other session and the
    active identifier; without an active session nothing changes; clearing
    twice is clearing once. *)
Theorem clear_active_session (w : World) :
  let w' := handleClearSession w in
  List.map title (sessions w') = List.map title (sessions w)
  ∧ List.map id (sessions w') = List.map id (sessions w)
  ∧ List.map createdAt (sessions w') = List.map createdAt (sessions w)
  ∧ List.map messages (sessions w')
    = List.map (λ s, if bool_decide (Some (id s) = activeTarget w) then [] else messages s)
        (sessions w)
  ∧ activeSessionId w' = activeSessionId w
  ∧ handleClearSession w' = w'.
Proof.
  cbn zeta. rewrite sessions_handleClearSession, !List.map_map.
  split; [apply List.map_ext; intros s; by case_bool_decide|].
  split; [apply List.map_ext; intros s; by case_bool_decide|].
  split; [apply List.map_ext; intros s; by case_bool_decide|].
  split; [apply List.map_ext; intros s; by case_bool_decide|].
  split; [|apply handleClearSession_idem].
  unfold handleClearSession. by destruct (activeTarget w).
Qed.

Lemma activeTarget_handleClearSession (w : World) :
  activeTarget (handleClearSession w) = activeTarget w.
Proof. unfold handleClearSession. by destruct (activeTarget w) eqn:Ha. Qed.

(** X7. Clearing does not reset the title, and a send after it derives a
    title by the same rule as on a new session: of the cleared session, and
    only when its title is [New Chat]; every other title stays. *)
Theorem title_after_clear_then_send (generate : Collaborator) (text : jstring)
    (image : option jstring) (o : ApiOutcome) (w : World) :
  List.map title (sessions (sendWith generate text image o (handleClearSession w)))
  = List.map (λ s, if bool_decide (Some (id s) = activeTarget w)
                      && bool_decide (title s = lit "New Chat")
                   then derivedTitle text else title s) (sessions w).
Proof.
  rewrite titles_sendWith, activeTarget_handleClearSession, sessions_handleClearSession.
  rewrite List.map_map. apply List.map_ext. intros s.
  unfold titleAfterSendAsSpecified. rewrite derivedTitle_spec.
  destruct (activeTarget w) as [a|].
  - destruct (decide (id s = a)) as [Hid|Hid].
    + rewrite (bool_decide_eq_true_2 (Some (id s) = Some a)) by congruence.
      cbn [id title messages withMessages].
      rewrite (bool_decide_eq_true_2 (id s = a)) by done.
      by rewrite (bool_decide_eq_true_2 ([] = [])).
    + rewrite (bool_decide_eq_false_2 (Some (id s) = Some a)) by congruence.
      by rewrite (bool_decide_eq_false_2 (id s = a)).
  - by rewrite bool_decide_eq_false_2.
Qed.

(** ** What a send leaves alone *)

(** A send, seen session by session. *)
Lemma sendWith_pointwise (generate : Collaborator) (text : jstring)
    (image : option jstring) (o : ApiOutcome) (w : World) :
  ∃ F, sessions (sendWith generate text image o w) = List.map F (sessions w)
       ∧ ∀ s, id (F s) = id s
              ∧ createdAt (F s) = createdAt s
              ∧ (title s ≠ lit "New Chat" → title (F s) = title s)
              ∧ (Some (id s) ≠ activeTarget w → F s = s).
Proof.
  destruct (activeTarget w) as [a|] eqn:Ha.
  - destruct (sessions_sendWith generate text image o w a Ha) as (g & Hg & ->).
    eexists. split; [reflexivity|]. intros s. cbn beta.
    assert (id (g (addUserMessage a text (mkMessage user text image) s)) = id s
            ∧ createdAt (g (addUserMessage a text (mkMessage user text image) s))
              = createdAt s
            ∧ title (g (addUserMessage a text (mkMessage user text image) s))
              = title (addUserMessage a text (mkMessage user text image) s)
            ∧ (id s ≠ a → g (addUserMessage a text (mkMessage user text image) s) = s))
      as (H1 & H2 & H3 & H4).
    { destruct Hg as [->|[aiText ->]];
        unfold addErrorMessage, addAiMessage, addUserMessage;
        repeat case_bool_decide; cbn [id createdAt title withMessages];
        repeat split; try done; intros; congruence. }
    split; [done|]. split; [done|]. split.
    + intros Ht. rewrite H3, title_addUserMessage. unfold titleAfterSendAsSpecified.
      rewrite (bool_decide_eq_false_2 (title s = lit "New Chat")) by done.
      by rewrite andb_false_r.
    + intros Hne. apply H4. congruence.
  - exists (λ s, s). rewrite sendWith_idle by done.
    split; [by rewrite List.map_id|done].
Qed.

Lemma sendAll_pointwise (more : list SendRequest) (w : World) :
  activeTarget (sendAll more w) = activeTarget w
  ∧ ∃ F, sessions (sendAll more w) = List.map F (sessions w)
         ∧ ∀ s, id (F s) = id s
                ∧ createdAt (F s) = createdAt s
                ∧ (title s ≠ lit "New Chat" → title (F s) = title s)
                ∧ (Some (id s) ≠ activeTarget w → F s = s).
Proof.
  induction more as [|[[[g t] i] o] more IH] using rev_ind.
  - split; [done|]. exists (λ s, s). split; [by rewrite List.map_id|done].
  - destruct IH as (Ha & F & HF & HFs).
    unfold sendAll. rewrite fold_left_app. cbn [fold_left sendStep].
    fold (sendAll more w).
    split; [by rewrite activeTarget_sendWith|].
    destruct (sendWith_pointwise g t i o (sendAll more w)) as (G & HG & HGs).
    exists (λ s, G (F s)). split; [by rewrite HG, HF, List.map_map|].
    intros s. destruct (HFs s) as (F1 & F2 & F3 & F4).
    destruct (HGs (F s)) as (G1 & G2 & G3 & G4).
    split; [congruence|]. split; [congruence|]. split.
    + intros Ht. rewrite G3; [by apply F3|]. by rewrite F3.
    + intros Hne. rewrite G4 by (rewrite F1, Ha; exact Hne). by apply F4.
Qed.

(** X8. No run of sends adds, removes or reorders sessions, changes an
    identifier or a creation time, or switches the active session; and a
    session that is not the target of the sends is left exactly as it was. *)
Theorem sends_leave_the_rest (more : list SendRequest) (w : World) :
  let w' := sendAll more w in
  List.map id (sessions w') = List.map id (sessions w)
  ∧ List.map createdAt (sessions w') = List.map createdAt (sessions w)
  ∧ activeTarget w' = activeTarget w
  ∧ ∀ other, Some other ≠ activeTarget w →
      findSession other (sessions w') = findSession other (sessions w).
Proof.
  cbn zeta. destruct (sendAll_pointwise more w) as (Ha & F & -> & HF).
  rewrite !List.map_map.
  split; [apply List.map_ext; intros s; apply HF|].
  split; [apply List.map_ext; intros s; apply HF|].
  split; [done|]. intros other Hother.
  rewrite findSession_map by (intros s; apply HF).
  destruct (findSession other (sessions w)) as [s|] eqn:Hs; [|done].
  cbn. f_equal. apply HF. apply findSession_id in Hs. congruence.
Qed.

(** A send to the first of two sessions leaves the second as it was. *)
Lemma sends_leave_the_rest_witness :
  findSession otherId
    (sessions (sendAll [(throwingStub networkDown, lit "hi", None, Rejected networkDown)]
                 twoSessions))
  = Some (createSession otherId 2000).
Proof.
  pose proof (sends_leave_the_rest
                [(throwingStub networkDown, lit "hi", None, Rejected networkDown)]
                twoSessions) as (_ & _ & _ & H).
  rewrite (H otherId); [reflexivity|discriminate].
Defined.

(** X9. A title given by a rename stays: when the new title is not
    [New Chat], no run of sends that follows changes it. *)
Theorem renamed_title_stays (target newTitle : jstring) (more : list SendRequest)
    (w : World) (s : ChatSession) :
  findSession target (sessions w) = Some s →
  newTitle ≠ lit "New Chat" →
  title <$> findSession target
              (sessions (sendAll more (handleRenameSession target newTitle w)))
  = Some newTitle.
Proof.
  intros Hs Hnew.
  destruct (sendAll_pointwise more (handleRenameSession target newTitle w))
    as (_ & F & -> & HF).
  rewrite findSession_map by (intros s0; apply HF).
  unfold handleRenameSession. cbn [sessions setSessions].
  rewrite findSession_map by (intros s0; by case_bool_decide).
  rewrite Hs. cbn [fmap option_fmap option_map].
  apply findSession_id in Hs. rewrite bool_decide_eq_true_2 by done.
  f_equal. by apply HF.
Qed.

Lemma renamed_title_stays_witness :
  title <$> findSession sampleId
              (sessions (sendAll [(throwingStub networkDown, lit "hi", None,
                                   Rejected networkDown)]
                           (handleRenameSession sampleId (lit "Plans") freshWorld)))
  = Some (lit "Plans").
Proof.
  apply (renamed_title_stays sampleId (lit "Plans") _ freshWorld emptySession).
  - reflexivity.
  - discriminate.
Defined.



(** ** The generation module, call by call *)


(** X11. What [generateResponse] hands back when the request resolves has
    no white space at either end, whatever the shape of the response. *)
Theorem reply_is_trimmed (response : jsval) (e : Env) :
  trimmed (readResponse response e).1.
Proof.
  unfold readResponse. cbv zeta.
  match goal with |- trimmed (let '(_, _) := ?chain in _).1 => destruct chain as [t e'] end.
  apply trimmed_trim.
Qed.

Lemma readResponse_not_string (response : jsval) (e : Env) :
  (∀ t, response ≠ VStr t) →
  readResponse response e
  = match getProp (getProp response (lit "message")) (lit "content") with
    | VStr ((_ :: _) as s) => (trim s, e)
    | _ =>
      match getProp response (lit "content") with
      | VStr ((_ :: _) as s) => (trim s, e)
      | _ =>
        match getProp response (lit "message") with
        | VStr ((_ :: _) as s) => (trim s, e)
        | _ =>
          (trim (toString
                   (orElse (orElse (getProp (getProp response (lit "message")) (lit "content"))
                                   (getProp response (lit "content")))
                           (VStr (lit "Error: Invalid response")))),
           logTo (LogUnexpectedResponse response) e)
        end
      end
    end.
Proof.
  intros Hresp. unfold readResponse. cbv zeta.
  generalize (getProp (getProp response (lit "message")) (lit "content")) as mc.
  generalize (getProp response (lit "content")) as dc.
  generalize (getProp response (lit "message")) as m.
  intros m dc mc.
  destruct response as [| | | |t| | |]; try (by destruct (Hresp t)); cbv beta iota;
    (destruct mc as [| | | |[|? ?]| | |]; cbv beta iota; try reflexivity;
     destruct dc as [| | | |[|? ?]| | |]; cbv beta iota; try reflexivity;
     destruct m as [| | | |[|? ?]| | |]; reflexivity).
Qed.

(** X12. The order in which a response that is not a string is read: a
    non-empty string under [message.content] is the reply; failing that, one
    under [content]; failing that, one under [message]; each time trimmed, and
    nothing is logged. *)
Theorem response_priority (response : jsval) (e : Env) (s : jstring) :
  (∀ t, response ≠ VStr t) →
  s ≠ [] →
  let messageContent := getProp (getProp response (lit "message")) (lit "content") in
  let directContent := getProp response (lit "content") in
  let message := getProp response (lit "message") in
  (messageContent = VStr s → readResponse response e = (trim s, e))
  ∧ ((∀ t, t ≠ [] → messageContent ≠ VStr t) → directContent = VStr s →
     readResponse response e = (trim s, e))
  ∧ ((∀ t, t ≠ [] → messageContent ≠ VStr t) → (∀ t, t ≠ [] → directContent ≠ VStr t) →
     message = VStr s → readResponse response e = (trim s, e)).
Proof.
  intros Hresp Hs. cbn zeta.
  rewrite (readResponse_not_string response e Hresp).
  destruct s as [|c s]; [done|]. clear Hs.
  set (mc := getProp (getProp response (lit "message")) (lit "content")).
  set (dc := getProp response (lit "content")).
  set (m := getProp response (lit "message")).
  assert (∀ v : jsval, (∀ t, t ≠ [] → v ≠ VStr t) →
            ∀ (A : Type) (k : jstring → A) (d : A),
              match v with VStr ((_ :: _) as t) => k t | _ => d end = d) as Hskip.
  { intros v Hv A k d. destruct v as [| | | |[|c0 t0]| | |]; try done.
    by destruct (Hv (c0 :: t0)). }
  split; [by intros ->|]. split.
  - intros Hmc ->. by rewrite (Hskip mc Hmc).
  - intros Hmc Hdc ->. by rewrite (Hskip mc Hmc), (Hskip dc Hdc).
Qed.

(** A response in the usual shape, with a stray [content] beside it. *)
Lemma response_priority_witness :
  readResponse
    (VObj [(lit "content", VStr (lit "beside"));
           (lit "message", VObj [(lit "content", VStr (lit " Hello! "))])]) idleEnv
  = (lit "Hello!", idleEnv).
Proof.
  refine (proj1 (response_priority
                   (VObj [(lit "content", VStr (lit "beside"));
                          (lit "message", VObj [(lit "content", VStr (lit " Hello! "))])])
                   idleEnv (lit " Hello! ") _ _) eq_refl).
  - discriminate.
  - discriminate.
Defined.

Section Generate_calls.
Variable JSON_stringify : jsval → completion jstring.


(** X14. The guard does not stick: once a call that found it free has
    completed, however its request ended, the next call goes out to
    [puter.ai.chat] again, with its own payload and model. *)
Theorem guard_free_for_next_call (prompt prompt' : jstring)
    (model image model' image' : option jstring) (e later : Env) (o : ApiOutcome) :
  isGenerating e = false →
  puterLoaded e = true →
  puterLoaded later = true →
  let e' := (settleAt (Generate.generateResponse JSON_stringify prompt model image e)
               o later).2 in
  requestOf (Generate.generateResponse JSON_stringify prompt' model' image' e')
  = Some (mkChatRequest (buildPayload prompt' image')
            (default (lit "gpt-4o-mini") model') false).
Proof.
  intros Hg Hp Hl. cbn zeta.
  assert (isGenerating (settleAt (Generate.generateResponse JSON_stringify prompt model
                                    image e) o later).2 = false
          ∧ puterLoaded (settleAt (Generate.generateResponse JSON_stringify prompt model
                                     image e) o later).2 = true) as [H1 H2].
  { unfold Generate.generateResponse. rewrite Hg.
    cbn [puterLoaded setIsGenerating]. rewrite Hp. cbn [negb settleAt].
    destruct o as [response|error].
    - pose proof (readResponse_frame response later) as (_ & Hpl & _).
      destruct (readResponse response later) as [reply e1].
      cbn [snd isGenerating puterLoaded setIsGenerating] in *. by rewrite Hpl.
    - destruct (catchBlock_returns JSON_stringify error later) as [reply ->].
      done. }
  unfold Generate.generateResponse at 1. rewrite H1.
  cbn [puterLoaded setIsGenerating]. by rewrite H2.
Qed.

(** X15. Called without a model, the three-parameter revision does what the
    two-parameter one does, request and completion alike, except for the
    wording of the reply when the request is rejected with a string, an array
    or a plain object. *)
Theorem revisions_agree (prompt : jstring) (image : option jstring)
    (e later : Env) (o : ApiOutcome) :
  (∀ s, o ≠ Rejected (VStr s)) →
  (∀ items, o ≠ Rejected (VArr items)) →
  (∀ fields, o ≠ Rejected (VObj fields)) →
  requestOf (Generate.generateResponse JSON_stringify prompt None image e)
  = requestOf (GenerateLegacy.generateResponse prompt image e)
  ∧ settleAt (Generate.generateResponse JSON_stringify prompt None image e) o later
    = settleAt (GenerateLegacy.generateResponse prompt image e) o later.
Proof.
  intros Hstr Harr Hobj.
  unfold Generate.generateResponse, GenerateLegacy.generateResponse.
  destruct (isGenerating e); [done|].
  cbn [puterLoaded setIsGenerating]. destruct (puterLoaded e); cbn [negb]; [|done].
  split; [done|]. cbn [settleAt].
  destruct o as [response|error]; [done|].
  destruct error as [| | | |s|items|fields|m]; try done.
  - by destruct (Hstr s).
  - by destruct (Harr items).
  - by destruct (Hobj fields).
Qed.
End Generate_calls.


(** A second call after a rejected first one. *)
Lemma guard_free_for_next_call_witness :
  requestOf
    (Generate.generateResponse stringifyStub (lit "again") (Some (lit "gpt-4o")) None
       (settleAt (Generate.generateResponse stringifyStub (lit "hi") None None idleEnv)
          (Rejected networkDown) idleEnv).2)
  = Some (mkChatRequest (VStr (lit "again")) (lit "gpt-4o") false).
Proof.
  exact (guard_free_for_next_call stringifyStub (lit "hi") (lit "again") None None
           (Some (lit "gpt-4o")) None idleEnv idleEnv (Rejected networkDown)
           eq_refl eq_refl eq_refl).
Defined.

(** Both revisions on a request rejected with an [Error]. *)
Lemma revisions_agree_witness :
  settleAt (Generate.generateResponse stringifyStub (lit "hi") None None idleEnv)
    (Rejected networkDown) idleEnv
  = settleAt (GenerateLegacy.generateResponse (lit "hi") None idleEnv)
      (Rejected networkDown) idleEnv.
Proof.
  refine (proj2 (revisions_agree stringifyStub (lit "hi") None idleEnv idleEnv
                   (Rejected networkDown) _ _ _)); discriminate.
Defined.

(** X16. The payload of a request: the prompt itself when no image is
    given (none, or an empty one); with an image, one user message of a text
    part and an image part, where the text is the prompt, or a stock question
    when the prompt is empty, so never empty, and the URL is the image when it
    is a [data:] URL and the image behind a JPEG [data:] prefix otherwise, so
    always a [data:] URL. *)
Theorem payload_shape (prompt : jstring) (image : option jstring) :
  (imageGiven image = None → buildPayload prompt image = VStr prompt)
  ∧ ∀ i, imageGiven image = Some i →
      ∃ textPart url,
        buildPayload prompt image
        = VArr [VObj [(lit "role", VStr (lit "user"));
                      (lit "content",
                       VArr [VObj [(lit "type", VStr (lit "text"));
                                   (lit "text", VStr textPart)];
                             VObj [(lit "type", VStr (lit "image_url"));
                                   (lit "image_url", VObj [(lit "url", VStr url)])]])]]
        ∧ textPart ≠ []
        ∧ (prompt ≠ [] → textPart = prompt)
        ∧ startsWith url (lit "data:") = true
        ∧ (startsWith i (lit "data:") = true → url = i).
Proof.
  unfold buildPayload. split; [by intros ->|].
  intros i ->.
  exists (match prompt with [] => lit "What is in this image?" | _ => prompt end),
         (if startsWith i (lit "data:") then i else lit "data:image/jpeg;base64," ++ i).
  split.
  { unfold orElse, truthy. by destruct prompt. }
  split; [by destruct prompt|]. split; [by destruct prompt|].
  destruct (startsWith i (lit "data:")) eqn:Hi; [by split|].
  split; [reflexivity|done].
Qed.

(** A bare base64 image with an empty prompt. *)
Lemma payload_shape_witness :
  ∃ textPart url,
    buildPayload [] (Some (lit "AAAA"))
    = VArr [VObj [(lit "role", VStr (lit "user"));
                  (lit "content",
                   VArr [VObj [(lit "type", VStr (lit "text"));
                               (lit "text", VStr textPart)];
                         VObj [(lit "type", VStr (lit "image_url"));
                               (lit "image_url", VObj [(lit "url", VStr url)])]])]]
    ∧ textPart ≠ []
    ∧ startsWith url (lit "data:") = true.
Proof.
  destruct (proj2 (payload_shape [] (Some (lit "AAAA"))) (lit "AAAA") eq_refl)
    as (textPart & url & H1 & H2 & _ & H3 & _).
  by exists textPart, url.
Defined.

(** ** The prompt of a send *)

(** X17. The prompt carries the ten most recent messages of the history and
    nothing of what came before them. *)
Theorem prompt_uses_last_ten (older recent : list Message) (text : jstring) :
  length recent = 10 →
  fullPrompt (older ++ recent) text = fullPrompt recent text.
Proof.
  intros Hlen. unfold fullPrompt, promptContext.
  rewrite length_app, Hlen.
  replace (length older + 10 - 10) with (length older) by lia.
  rewrite drop_app_length.
  by replace (10 - 10) with 0 by lia.
Qed.

Lemma prompt_uses_last_ten_witness :
  fullPrompt ([hello; hello] ++ replicate 10 hi) (lit "yo")
  = fullPrompt (replicate 10 hi) (lit "yo").
Proof. apply prompt_uses_last_ten. reflexivity. Defined.

(** ** A send from the first to the last step *)




(** ** The message input *)

(** X19. The input hands nothing to [onSend] exactly when it is disabled or
    holds only white space and no image, and then it keeps its state; what it
    hands over otherwise is the text as typed, not trimmed, with the image (an
    empty one counts as none), and the field is emptied. *)
Theorem input_gate (disabled : bool) (st : ChatInput.State) :
  ((ChatInput.handleSubmit disabled st).1 = None
   ↔ disabled = true
     ∨ (trim (ChatInput.text st) = [] ∧ ChatInput.selectedImage st = None))
  ∧ ((ChatInput.handleSubmit disabled st).1 = None
     → (ChatInput.handleSubmit disabled st).2 = st)
  ∧ (∀ sent, (ChatInput.handleSubmit disabled st).1 = Some sent →
       sent = (ChatInput.text st, imageGiven (ChatInput.selectedImage st))
       ∧ (ChatInput.handleSubmit disabled st).2 = ChatInput.mkState [] None false).
Proof.
  unfold ChatInput.handleSubmit, ChatInput.hasInput.
  destruct disabled.
  - rewrite orb_true_r. cbn [fst snd]. split; [by split; [left|]|].
    split; [done|]. by intros ? [=].
  - rewrite orb_false_r.
    case_bool_decide as Ht; case_bool_decide as Hi; cbn [negb orb fst snd].
    + split; [split; [done|]|]; [intros [?|[_ ?]]; done|].
      split; [done|]. by intros ? [= <-].
    + split; [split; [intros _; right; split; [done|]|done]|].
      { by destruct (ChatInput.selectedImage st); [destruct Hi|]. }
      split; [done|]. by intros ? [=].
    + split; [split; [done|]|]; [intros [?|[? _]]; done|].
      split; [done|]. by intros ? [= <-].
    + split; [split; [done|]|]; [intros [?|[? _]]; done|].
      split; [done|]. by intros ? [= <-].
Qed.

Lemma input_gate_witness :
  (ChatInput.handleSubmit false (ChatInput.mkState (lit " hi ") None true)).1
  = Some (lit " hi ", None)
  ∧ (ChatInput.handleSubmit false (ChatInput.mkState (lit " hi ") None true)).2
    = ChatInput.mkState [] None false.
Proof.
  destruct (input_gate false (ChatInput.mkState (lit " hi ") None true)) as (_ & _ & H).
  destruct (H (lit " hi ", None) eq_refl) as [_ H2].
  split; [reflexivity|exact H2].
Defined.

Lemma pending_send_is_typing (generate : Collaborator) (text : jstring)
    (image : option jstring) (w w1 : World) :
  pendingState (handleSendWith generate text image w) = Some w1 → isTyping w1 = true.
Proof.
  unfold handleSendWith. destruct (activeTarget w); [|done]. cbn zeta.
  destruct (generate _ image _) as [c e|e request resume]; [done|].
  by intros [= <-].
Qed.

(** X20. While a send waits for its reply the input is disabled: a submit
    in the world the pending send has left changes neither that world nor the
    input, and no second send starts. *)
Theorem no_submit_while_waiting (text : jstring) (image : option jstring)
    (w w1 : World) (st : ChatInput.State) :
  pendingState (handleSend text image w) = Some w1 →
  submitMessage st w1 = (Settled (Return ()) w1, st).
Proof.
  intros Hp%pending_send_is_typing.
  unfold submitMessage, inputDisabled, ChatInput.handleSubmit.
  by rewrite Hp, !orb_true_r.
Qed.

Lemma no_submit_while_waiting_witness :
  submitMessage (ChatInput.mkState (lit "again") None false) sendingWorld
  = (Settled (Return ()) sendingWorld, ChatInput.mkState (lit "again") None false).
Proof.
  apply (no_submit_while_waiting (lit "hi") None (worldOf [sampleSession] sampleId)).
  reflexivity.
Defined.

(** ** The menu of a session *)

(** X21. A menu action changes nothing and asks for no file when its
    session is not in the list, when the deletion is not confirmed, and when
    the prompt for a new title is dismissed or left empty.  An export changes
    nothing either, and asks for the session's export under its title, or
    under [chat] when the title is empty, with [.md] appended. *)
Theorem menu_action_without_effect (action : MenuAction) (target : jstring)
    (confirmed : bool) (answer : option jstring) (uuid : jstring) (now : Z) (w : World) :
  (findSession target (sessions w) = None
   ∨ (action = DeleteChat ∧ confirmed = false)
   ∨ (action = RenameChat ∧ (answer = None ∨ answer = Some []))
   → handleAction action target confirmed answer uuid now w = (Return (), w, None))
  ∧ ∀ s, findSession target (sessions w) = Some s → action = ExportChat →
      handleAction action target confirmed answer uuid now w
      = (Return (), w,
         Some ((if bool_decide (title s = []) then lit "chat" else title s) ++ lit ".md",
               exportSessionToMarkdown s)).
Proof.
  unfold handleAction. split.
  - intros [->|[[-> ->]|[-> [->| ->]]]];
      [done|by destruct (findSession _ _)..].
  - intros s -> ->. cbn [handleExportSession].
    by destruct (title s).
Qed.

Lemma menu_action_without_effect_witness :
  handleAction RenameChat sampleId true (Some []) otherId 2000 freshWorld
  = (Return (), freshWorld, None).
Proof.
  apply (menu_action_without_effect RenameChat sampleId true (Some []) otherId 2000
           freshWorld).
  right. right. split; [reflexivity|]. by right.
Defined.

(** ** The state the handlers keep *)

Lemma consistent_coherent (w : World) : consistent w → coherent w.
Proof. intros (H1 & H2 & H3 & _). by repeat split. Qed.

Lemma saveEffect_consistent (w : World) :
  coherent w → consistent (saveEffect w) ∧ sessions (saveEffect w) = sessions w.
Proof.
  intros (Hne & Hnd & Ha). unfold saveEffect.
  destruct (sessions w) as [|s l] eqn:Hs; [done|].
  cbn [length Nat.ltb Nat.leb]. unfold consistent. cbn [sessions saveSessions
    activeSessionId storage]. rewrite Hs. by repeat split.
Qed.

Lemma findSession_listed (target : jstring) (l : list ChatSession) (s : ChatSession) :
  findSession target l = Some s → target ∈ List.map id l.
Proof.
  intros Hs. pose proof (findSession_id _ _ _ Hs) as <-.
  unfold findSession in Hs. apply find_some in Hs as [Hin _].
  apply list_elem_of_In in Hin. by apply (list_elem_of_fmap_2 id).
Qed.

Lemma NoDup_ids_sublist (l1 l2 : list ChatSession) :
  l1 `sublist_of` l2 → NoDup (List.map id l2) → NoDup (List.map id l1).
Proof.
  induction 1 as [|x l1 l2 Hsub IH|x l1 l2 Hsub IH]; cbn [List.map]; [done| |].
  - intros [Hx Hl]%NoDup_cons. apply NoDup_cons. split; [|by apply IH].
    intros Hin. apply Hx.
    apply (list_elem_of_fmap_1 id) in Hin as (y & -> & Hy).
    apply (list_elem_of_fmap_2 id). by eapply sublist_subseteq.
  - intros [_ Hl]%NoDup_cons. by apply IH.
Qed.

Lemma create_coherent (uuid : jstring) (now : Z) (w : World) :
  NoDup (List.map id (sessions w)) →
  uuid ∉ List.map id (sessions w) →
  coherent (handleCreateSession uuid now w)
  ∧ length (sessions (handleCreateSession uuid now w)) ≤ 10.
Proof.
  intros Hnd Hfresh. rewrite handleCreateSession_sessions.
  split; [|cbn [length]; rewrite length_take; lia].
  unfold coherent. rewrite handleCreateSession_sessions. cbn [List.map id createSession].
  split; [done|]. split.
  - apply NoDup_cons. split.
    + intros Hin. apply Hfresh.
      apply (list_elem_of_fmap_1 id) in Hin as (y & -> & Hy).
      apply (list_elem_of_fmap_2 id). by eapply subseteq_take.
    + eapply NoDup_ids_sublist; [apply sublist_take|done].
  - exists uuid. split; [done|]. by left.
Qed.

Lemma select_coherent (index : nat) (w : World) :
  coherent w → coherent (selectListed index w)
               ∧ sessions (selectListed index w) = sessions w.
Proof.
  intros (Hne & Hnd & Ha). unfold selectListed.
  destruct (sessions w !! index) as [s|] eqn:Hs; [|by repeat split].
  split; [|done]. unfold coherent. cbn [sessions activeSessionId setActiveSessionId].
  split; [done|]. split; [done|]. exists (id s). split; [done|].
  apply (list_elem_of_fmap_2 id). by eapply list_elem_of_lookup_2.
Qed.

Lemma coherent_same_ids (w w' : World) :
  List.map id (sessions w') = List.map id (sessions w) →
  activeSessionId w' = activeSessionId w →
  coherent w → coherent w' ∧ length (sessions w') = length (sessions w).
Proof.
  intros Hids Hact (Hne & Hnd & Ha).
  assert (length (sessions w') = length (sessions w)) as Hlen.
  { by rewrite <- (length_map id (sessions w')), Hids, length_map. }
  split; [|done]. unfold coherent. rewrite Hids, Hact.
  split; [|done]. intros Hnil. rewrite Hnil in Hlen. cbn in Hlen.
  by destruct (sessions w).
Qed.

Lemma rename_ids (target newTitle : jstring) (w : World) :
  List.map id (sessions (handleRenameSession target newTitle w)) = List.map id (sessions w).
Proof.
  unfold handleRenameSession. cbn [sessions setSessions].
  rewrite List.map_map. apply List.map_ext. intros s. by case_bool_decide.
Qed.

Lemma clear_ids (w : World) :
  List.map id (sessions (handleClearSession w)) = List.map id (sessions w)
  ∧ activeSessionId (handleClearSession w) = activeSessionId w.
Proof.
  rewrite sessions_handleClearSession, List.map_map. split.
  - apply List.map_ext. intros s. by case_bool_decide.
  - unfold handleClearSession. by destruct (activeTarget w).
Qed.

Lemma send_ids (generate : Collaborator) (text : jstring) (image : option jstring)
    (o : ApiOutcome) (w : World) :
  List.map id (sessions (sendWith generate text image o w)) = List.map id (sessions w)
  ∧ activeSessionId (sendWith generate text image o w) = activeSessionId w.
Proof.
  split.
  - destruct (sendWith_pointwise generate text image o w) as (F & -> & HF).
    rewrite List.map_map. apply List.map_ext. intros s. apply HF.
  - destruct (activeTarget w) as [a|] eqn:Ha; [|by rewrite sendWith_idle].
    rewrite (sendWith_unfold _ _ _ _ _ a Ha). cbn zeta.
    unfold afterGenerate. by destruct (runAsync _ _).1.
Qed.

Lemma delete_coherent (target uuid : jstring) (now : Z) (w : World) :
  coherent w →
  target ∈ List.map id (sessions w) →
  (handleDeleteSession target uuid now w).1 = Return ()
  ∧ coherent (handleDeleteSession target uuid now w).2
  ∧ length (sessions (handleDeleteSession target uuid now w).2) ≤ length (sessions w).
Proof.
  intros (Hne & Hnd & a & Ha & Hain) Hin. unfold handleDeleteSession.
  destruct ((length (sessions w) =? 1)%nat
            && match sessions w with
               | s0 :: _ => bool_decide (id s0 = target)
               | [] => false
               end) eqn:Honly.
  - cbn [fst snd]. split; [done|]. split.
    + unfold coherent. cbn [sessions activeSessionId setActiveSessionId setSessions
                            List.map id createSession].
      split; [done|]. split; [apply NoDup_singleton|].
      exists uuid. split; [done|]. by left.
    + cbn [sessions setActiveSessionId setSessions length].
      destruct (sessions w); [done|cbn [length]; lia].
  - assert (2 ≤ length (sessions w)) as Hlen.
    { destruct (sessions w) as [|s0 [|s1 l]] eqn:Hs; [done| |cbn [length]; lia].
      cbn [List.map] in Hin. apply list_elem_of_singleton in Hin.
      cbn [length Nat.eqb andb] in Honly.
      by rewrite bool_decide_eq_true_2 in Honly. }
    pose proof (filter_other_ids_length target (sessions w) Hnd Hin) as Hflen.
    assert (NoDup (List.map id (filter (λ s, id s ≠ target) (sessions w)))) as Hfnd.
    { eapply NoDup_ids_sublist; [apply sublist_filter|done]. }
    assert (a ≠ target → a ∈ List.map id (filter (λ s, id s ≠ target) (sessions w)))
      as Hkeep.
    { intros Hat. apply (list_elem_of_fmap_1 id) in Hain as (y & -> & Hy).
      apply (list_elem_of_fmap_2 id). by apply list_elem_of_filter. }
    cbn [activeSessionId setSessions sessions].
    destruct (filter (λ s, id s ≠ target) (sessions w)) as [|f fs] eqn:Hf.
    { cbn [length] in Hflen. lia. }
    case_bool_decide as Hact;
      cbn [fst snd activeSessionId setActiveSessionId sessions setSessions].
    + split; [done|]. split; [|lia]. split; [done|]. split; [done|].
      exists (id f). split; [done|]. by left.
    + split; [done|]. split; [|lia]. split; [done|]. split; [done|].
      exists a. split; [done|]. apply Hkeep. congruence.
Qed.

Lemma handleAction_coherent (action : MenuAction) (target : jstring) (confirmed : bool)
    (answer : option jstring) (uuid : jstring) (now : Z) (w : World) :
  coherent w →
  let result := (handleAction action target confirmed answer uuid now w).1 in
  result.1 = Return () ∧ coherent result.2
  ∧ length (sessions result.2) ≤ length (sessions w).
Proof.
  intros Hw. cbn zeta. unfold handleAction.
  assert (∀ file : option (jstring * jstring),
            (Return (), w, file).1.1 = Return ()
            ∧ coherent (Return (), w, file).1.2
            ∧ length (sessions (Return (), w, file).1.2) ≤ length (sessions w))
    as Hsame.
  { intros file. cbn [fst snd]. split; [done|]. split; [exact Hw|lia]. }
  destruct (findSession target (sessions w)) as [s|] eqn:Hs; [|apply Hsame].
  apply findSession_listed in Hs.
  destruct action.
  - destruct answer as [[|c newTitle]|]; [apply Hsame| |apply Hsame].
    cbn [fst snd]. split; [done|].
    destruct (coherent_same_ids w (handleRenameSession target (c :: newTitle) w)
                (rename_ids _ _ _) eq_refl Hw) as [H1 H2].
    split; [done|lia].
  - destruct confirmed; [|apply Hsame].
    pose proof (delete_coherent target uuid now w Hw Hs) as (H1 & H2 & H3).
    by destruct (handleDeleteSession target uuid now w).
  - apply Hsame.
Qed.

Lemma stepEvent_consistent (w : World) (ev : UserEvent) :
  consistent w →
  match ev with
  | EvNewChat uuid _ => uuid ∉ List.map id (sessions w)
  | _ => True
  end →
  (stepEvent w ev).1 = Return ()
  ∧ consistent (stepEvent w ev).2
  ∧ length (sessions (stepEvent w ev).2) ≤ length (sessions w) `max` 10.
Proof.
  intros Hw%consistent_coherent Hfresh. unfold stepEvent.
  assert (∀ c w', c = Return () → coherent w' →
            length (sessions w') ≤ length (sessions w) `max` 10 →
            (c, saveEffect w').1 = Return ()
            ∧ consistent (c, saveEffect w').2
            ∧ length (sessions (c, saveEffect w').2) ≤ length (sessions w) `max` 10)
    as Hsave.
  { intros c w' -> Hw' Hlen. cbn [fst snd].
    destruct (saveEffect_consistent w' Hw') as [H1 H2]. rewrite H2.
    split; [done|]. split; [exact H1|exact Hlen]. }
  destruct ev as [uuid now|index| |action target confirmed answer uuid now
                  |generate text image o].
  - destruct (create_coherent uuid now w) as [H1 H2]; [apply Hw|done|].
    apply Hsave; [done|done|lia].
  - destruct (select_coherent index w Hw) as [H1 H2].
    apply Hsave; [done|done|]. rewrite H2. lia.
  - destruct (clear_ids w) as [H1 H2].
    destruct (coherent_same_ids w (handleClearSession w) H1 H2 Hw) as [H3 H4].
    apply Hsave; [done|done|lia].
  - pose proof (handleAction_coherent action target confirmed answer uuid now w Hw)
      as (H1 & H2 & H3).
    destruct (handleAction action target confirmed answer uuid now w).1 as [c w'].
    apply Hsave; [done|done|]. cbn [snd] in H3. lia.
  - destruct (send_ids generate text image o w) as [H1 H2].
    destruct (coherent_same_ids w (sendWith generate text image o w) H1 H2 Hw)
      as [H3 H4].
    apply Hsave; [done|done|lia].
Qed.

(** X22. From a consistent state, no run of new chats, selections, clears,
    menu actions and sends leaves it, as long as every new chat draws an
    identifier that is not in the list: there is always a session, the
    identifiers stay distinct, the active identifier names a listed session,
    and what is stored is the list.  No handler of the run ends with an
    exception, and the list never grows beyond 10 sessions, or beyond its
    first length when that was more. *)
Theorem run_keeps_consistent (events : list UserEvent) (w : World) :
  consistent w →
  freshDraws events w →
  consistent (runEvents events w)
  ∧ allReturn events w
  ∧ length (sessions (runEvents events w)) ≤ length (sessions w) `max` 10.
Proof.
  revert w. induction events as [|ev events IH]; intros w Hw Hfresh.
  - cbn [runEvents fold_left allReturn]. split; [done|]. split; [done|lia].
  - cbn [freshDraws] in Hfresh. destruct Hfresh as [Hev Hrest].
    destruct (stepEvent_consistent w ev Hw Hev) as (H1 & H2 & H3).
    destruct (IH _ H2 Hrest) as (H4 & H5 & H6).
    unfold runEvents in *. cbn [fold_left allReturn].
    split; [done|]. split; [done|]. lia.
Qed.

Lemma freshWorld_consistent : consistent freshWorld.
Proof.
  split; [done|]. split; [apply NoDup_singleton|].
  split; [|done]. exists sampleId. split; [done|]. by left.
Defined.

(** A new chat, a send, a rename through the menu, and the new chat deleted. *)
Lemma run_keeps_consistent_witness :
  let events := [EvNewChat otherId 2000;
                 EvSend (throwingStub networkDown) (lit "hi") None (Rejected networkDown);
                 EvMenu RenameChat sampleId true (Some (lit "Plans")) (lit "77aa") 3000;
                 EvMenu DeleteChat otherId true None (lit "77aa") 3000] in
  consistent (runEvents events freshWorld)
  ∧ allReturn events freshWorld
  ∧ List.map title (sessions (runEvents events freshWorld)) = [lit "Plans"].
Proof.
  cbn zeta.
  destruct (run_keeps_consistent
              [EvNewChat otherId 2000;
               EvSend (throwingStub networkDown) (lit "hi") None (Rejected networkDown);
               EvMenu RenameChat sampleId true (Some (lit "Plans")) (lit "77aa") 3000;
               EvMenu DeleteChat otherId true None (lit "77aa") 3000]
              freshWorld freshWorld_consistent) as (H1 & H2 & _).
  - cbn [freshDraws]. split; [compute_done|done].
  - split; [exact H1|]. split; [exact H2|]. reflexivity.
Defined.

Lemma mount_sessions (uuid : jstring) (now : Z) (w : World) :
  let w' := mount uuid now w in
  sessions w' = match loadSessions w with
                | [] => [createSession uuid now]
                | stored => stored
                end
  ∧ activeSessionId w' = id <$> head (sessions w')
  ∧ storage w' = Some (sessions w').
Proof.
  cbn zeta. unfold mount, loadEffect, saveEffect.
  by destruct (loadSessions w) as [|first rest].
Qed.

Lemma mount_coherent (uuid : jstring) (now : Z) (w : World) :
  NoDup (List.map id (loadSessions w)) → consistent (mount uuid now w).
Proof.
  intros Hnd. destruct (mount_sessions uuid now w) as (Hs & Ha & Hst).
  unfold consistent. rewrite Ha, Hst, Hs.
  destruct (loadSessions w) as [|first rest].
  - split; [done|]. split; [apply NoDup_singleton|].
    split; [|done]. exists uuid. split; [done|]. by left.
  - split; [done|]. split; [done|].
    split; [|done]. exists (id first). split; [done|]. by left.
Qed.

(** X23. The mount leaves a consistent state whatever is stored, provided
    the stored identifiers are distinct: the stored list when there is one and
    it is not empty, one new session otherwise; the first session is the
    active one, and the list is stored. *)
Theorem mount_is_consistent (uuid : jstring) (now : Z) (w : World) :
  NoDup (List.map id (loadSessions w)) →
  let w' := mount uuid now w in
  consistent w'
  ∧ activeSessionId w' = id <$> head (sessions w')
  ∧ sessions w' = match loadSessions w with
                  | [] => [createSession uuid now]
                  | stored => stored
                  end.
Proof.
  intros Hnd. cbn zeta.
  destruct (mount_sessions uuid now w) as (Hs & Ha & _).
  split; [by apply mount_coherent|]. by split.
Qed.

Lemma mount_is_consistent_witness :
  consistent (mount otherId 2000 twoSessions)
  ∧ activeSessionId (mount otherId 2000 twoSessions) = Some sampleId.
Proof.
  destruct (mount_is_consistent otherId 2000 twoSessions) as (H1 & H2 & _).
  - repeat constructor; compute_done.
  - split; [exact H1|exact H2].
Defined.

(** X24. What a consistent state has stored is what a later mount finds:
    the mount of any world with that storage has the same sessions in the same
    order, and makes the first of them active, whichever was active before. *)
Theorem reload_restores_sessions (uuid : jstring) (now : Z) (w reloaded : World) :
  consistent w →
  storage reloaded = storage w →
  sessions (mount uuid now reloaded) = sessions w
  ∧ activeSessionId (mount uuid now reloaded) = id <$> head (sessions w)
  ∧ consistent (mount uuid now reloaded).
Proof.
  intros (Hne & Hnd & _ & Hst) Hre.
  assert (loadSessions reloaded = sessions w) as Hl.
  { unfold loadSessions. by rewrite Hre, Hst. }
  destruct (mount_sessions uuid now reloaded) as (Hs & Ha & _).
  rewrite Hl in Hs.
  assert (sessions (mount uuid now reloaded) = sessions w) as Hs'.
  { rewrite Hs. by destruct (sessions w). }
  split; [done|]. split; [by rewrite Ha, Hs'|].
  apply mount_coherent. by rewrite Hl.
Qed.

Lemma reload_restores_sessions_witness :
  sessions (mount otherId 2000 (mkWorld [] None false (storage freshWorld) idleEnv))
  = sessions freshWorld.
Proof.
  exact (proj1 (reload_restores_sessions otherId 2000 freshWorld
                  (mkWorld [] None false (storage freshWorld) idleEnv)
                  freshWorld_consistent eq_refl)).
Defined.

(** ** The login form *)

(** The two chains of [validate], field by field. *)
Lemma validate_cases (username password : jstring) :
  ∃ usernameOk passwordOk usernameError passwordError,
    LoginForm.validate username password
    = (usernameOk && passwordOk, LoginForm.mkErrors usernameError passwordError [])
    ∧ (usernameOk = true
       ↔ 4 ≤ length username ∧ forallb LoginForm.isAlphanumeric username = true)
    ∧ (usernameOk = true ↔ usernameError = [])
    ∧ (passwordOk = true ↔ 6 ≤ length password)
    ∧ (passwordOk = true ↔ passwordError = []).
Proof.
  unfold LoginForm.validate, LoginForm.usernameRegexTest.
  set (U := if bool_decide (username = []) then _ else _).
  set (P := if bool_decide (password = []) then _ else _).
  assert ((U.2 = true
           ↔ 4 ≤ length username ∧ forallb LoginForm.isAlphanumeric username = true)
          ∧ (U.2 = true ↔ U.1 = [])) as [HU1 HU2].
  { subst U. case_bool_decide as Hu1.
    - subst username. cbn [fst snd length]. split; (split; [done|]).
      + intros [? _]. lia.
      + discriminate.
    - destruct (Nat.ltb_spec (length username) 4) as [Hu2|Hu2].
      + cbn [fst snd]. split; (split; [done|]).
        * intros [? _]. lia.
        * discriminate.
      + cbn [negb andb].
        destruct (forallb LoginForm.isAlphanumeric username) eqn:Hu3; cbn [negb fst snd].
        * by split.
        * split; (split; [done|]).
          -- by intros [_ ?].
          -- discriminate. }
  assert ((P.2 = true ↔ 6 ≤ length password) ∧ (P.2 = true ↔ P.1 = [])) as [HP1 HP2].
  { subst P. case_bool_decide as Hp1.
    - subst password. cbn [fst snd length]. split; (split; [done|]).
      + lia.
      + discriminate.
    - destruct (Nat.ltb_spec (length password) 6) as [Hp2|Hp2]; cbn [fst snd].
      + split; (split; [done|]).
        * lia.
        * discriminate.
      + by split. }
  destruct U as [usernameError usernameOk], P as [passwordError passwordOk].
  by exists usernameOk, passwordOk, usernameError, passwordError.
Qed.

(** X25. [validate] accepts exactly a user name of four or more code units,
    all of them letters or digits, with a password of six or more; it accepts
    exactly when it reports no error for either field, and it never sets the
    form error. *)
Theorem validate_accepts (username password : jstring) :
  let result := LoginForm.validate username password in
  (result.1 = true
   ↔ 4 ≤ length username
     ∧ forallb LoginForm.isAlphanumeric username = true
     ∧ 6 ≤ length password)
  ∧ (result.1 = true
     ↔ LoginForm.usernameError result.2 = [] ∧ LoginForm.passwordError result.2 = [])
  ∧ LoginForm.formError result.2 = [].
Proof.
  cbn zeta.
  destruct (validate_cases username password)
    as (usernameOk & passwordOk & usernameError & passwordError
        & -> & HU1 & HU2 & HP1 & HP2).
  cbn [fst snd LoginForm.usernameError LoginForm.passwordError LoginForm.formError].
  rewrite andb_true_iff, <- HU2, <- HP2, HU1, HP1.
  split; [|done]. split.
  - by intros [[? ?] ?].
  - by intros (? & ? & ?).
Qed.

(** X26. [handleSubmit] calls [onSuccess] for the user name [user] with the
    password [user123] and for nothing else; a valid pair that is not this one
    gets the form error [Invalid credentials], and an invalid pair leaves the
    errors as they are. *)
Theorem login_succeeds_iff (username password : jstring) (errors : LoginForm.Errors) :
  let result := LoginForm.handleSubmit username password errors in
  (result.1 = true ↔ username = lit "user" ∧ password = lit "user123")
  ∧ ((LoginForm.validate username password).1 = false → result.2 = errors)
  ∧ ((LoginForm.validate username password).1 = true → result.1 = false →
     LoginForm.formError result.2 = lit "Invalid credentials").
Proof.
  cbn zeta. unfold LoginForm.handleSubmit.
  destruct (LoginForm.validate username password).1 eqn:Hv; cbn [negb].
  - split; [|split; [done|]].
    + case_bool_decide as Hu; [case_bool_decide as Hp|]; cbn [andb fst snd].
      * done.
      * split; [done|]. by intros [_ ?].
      * split; [done|]. by intros [? _].
    + intros _. case_bool_decide as Hu; [case_bool_decide as Hp|]; cbn [andb fst snd];
        [done|by intros _..].
  - cbn [fst snd]. split; [|by split].
    split; [done|]. intros [-> ->]. by vm_compute in Hv.
Qed.

(** The accepted pair, and a valid pair that is not accepted. *)
Lemma login_succeeds_iff_witness :
  (LoginForm.handleSubmit (lit "user") (lit "user123") (LoginForm.mkErrors [] [] [])).1
  = true
  ∧ LoginForm.formError
      (LoginForm.handleSubmit (lit "admin") (lit "secret1") (LoginForm.mkErrors [] [] [])).2
    = lit "Invalid credentials".
Proof.
  split.
  - apply (proj1 (login_succeeds_iff (lit "user") (lit "user123")
                    (LoginForm.mkErrors [] [] []))). by split.
  - apply (proj2 (proj2 (login_succeeds_iff (lit "admin") (lit "secret1")
                           (LoginForm.mkErrors [] [] [])))); reflexivity.
Defined.
